(** * Software tiling and untiling of U-interleaved images (pan_tiling.c)

    A shallow embedding of the store and load routines of
    [src/panfrost/shared/pan_tiling.c] and the properties of the
    tile addressing they implement.

    Conventions of the embedding:
    - C's [unsigned] and [uint32_t] values are [Z] with the wrap-around
      written as [u32]; [uint16_t] values wrap with [u16]; a value
      converted to [int] goes through [s32].
    - The two buffers of a call never overlap, so each is a memory of its
      own: a map from byte offsets to bytes.  A pointer into a buffer is the
      byte offset it designates; pointer arithmetic is plain addition. *)

From Stdlib Require Import ZArith List Lia Bool.
From Stdlib Require Import Strings.Byte.
Import ListNotations.
Local Open Scope Z_scope.

(** ** Machine integers *)

Definition u16 (z : Z) : Z := z mod 2 ^ 16.
Definition u32 (z : Z) : Z := z mod 2 ^ 32.
Definition s32 (z : Z) : Z := (z + 2 ^ 31) mod 2 ^ 32 - 2 ^ 31.

(** Modelled from the spec: [util/macros.h] is not part of the sources; the
    spec describes [DIV_ROUND_UP] as round-up division, which Mesa writes
    [((A) + (B) - 1) / (B)], evaluated here on [unsigned] operands. *)
Definition DIV_ROUND_UP (a b : Z) : Z := u32 (a + b - 1) / b.

(** Modelled from the spec: [MIN2] of [util/macros.h], the smaller of its
    two arguments. *)
Definition MIN2 (a b : Z) : Z := if a <? b then a else b.

(** ** Format descriptions

    [util_format_description] is an external table; only the three fields of
    [block] are read. *)

Record util_format_block : Type := mk_block { width : Z; height : Z; bits : Z }.
Record util_format_description : Type := mk_desc { block : util_format_block }.

(** ** Memory *)

Definition mem : Type := Z -> byte.

(** [*outp = *inp] for a [pixel_t] of [elem] bytes, [outp] pointing into
    [out] and [inp] into [inp_m]. *)
Definition copy_pixel (elem : Z) (out inp_m : mem) (outp inp : Z) : mem :=
  fun a => if (outp <=? a) && (a <? outp + elem)
           then inp_m (inp + (a - outp)) else out a.

(** The pair of buffers a routine works on: the one [dst] points into and
    the one [src] points into. *)
Definition bufs : Type := (mem * mem)%type.

(** [outp = is_store ? dest : source; inp = is_store ? source : dest;
    *outp = *inp]. *)
Definition assign_pixel (elem : Z) (is_store : bool) (b : bufs)
    (dest source : Z) : bufs :=
  let (D, S) := b in
  if is_store then (copy_pixel elem D S dest source, S)
  else (D, copy_pixel elem S D source dest).

(** ** Lookup tables *)

Definition bit_duplication_table : list Z :=
  [ 0x00; 0x03; 0x0c; 0x0f; 0x30; 0x33; 0x3c; 0x3f;
    0xc0; 0xc3; 0xcc; 0xcf; 0xf0; 0xf3; 0xfc; 0xff ].

Definition space_4_table : list Z :=
  [ 0x00; 0x01; 0x04; 0x05; 0x10; 0x11; 0x14; 0x15;
    0x40; 0x41; 0x44; 0x45; 0x50; 0x51; 0x54; 0x55 ].

Definition bit_duplication (n : Z) : Z := nth (Z.to_nat n) bit_duplication_table 0.
Definition space_4 (n : Z) : Z := nth (Z.to_nat n) space_4_table 0.

Definition TILE_WIDTH : Z := 16.
Definition TILE_HEIGHT : Z := 16.
Definition PIXELS_PER_TILE : Z := TILE_WIDTH * TILE_HEIGHT.

(** ** Loops *)

(** [for (int i = i0, j = j0; <n iterations>; ++i, ++j) body]. *)
Fixpoint for2 {A : Type} (n : nat) (body : Z -> Z -> A -> A) (i j : Z) (a : A) : A :=
  match n with
  | O => a
  | S n' => for2 n' body (i + 1) (j + 1) (body i j a)
  end.

(** [for (uint8_t i = i0; <n iterations>; ++i) body]. *)
Fixpoint for1 {A : Type} (n : nat) (body : Z -> A -> A) (i : Z) (a : A) : A :=
  match n with
  | O => a
  | S n' => for1 n' body (i + 1) (body i a)
  end.

(** [for (; source < source_end; <step>)], the state being
    (memory, [dest], [source]); [fuel] bounds the number of iterations. *)
Fixpoint while_source (fuel : nat) (source_end : Z)
    (step : mem * Z * Z -> mem * Z * Z) (st : mem * Z * Z) : mem * Z * Z :=
  match fuel with
  | O => st
  | S fuel' =>
      if snd st <? source_end
      then while_source fuel' source_end step (step st)
      else st
  end.

(** ** The aligned store routines, [TILED_STORE_TYPE(pixel_t, shift)]

    [sizeof(pixel_t)] is [1 << shift].  The parameters [sx], [sy], [w] and
    [h] are [uint16_t]: the arguments are converted on entry. *)

Definition TILED_STORE_TYPE (shift : Z) (b : bufs)
    (dst src sx sy w h dst_stride src_stride : Z) : bufs :=
  let sizeof_pixel_t := Z.shiftl 1 shift in
  let sx := u16 sx in
  let sy := u16 sy in
  let w := u16 w in
  let h := u16 h in
  let S := snd b in
  let dest_start := dst + Z.shiftr sx 4 * PIXELS_PER_TILE * sizeof_pixel_t in
  (for2 (Z.to_nat h) (fun y src_y D =>
     let block_y := u16 (Z.land y (Z.lnot 0x0f)) in
     let dest := dest_start + u32 (block_y * dst_stride) in
     let source := src + u32 (src_y * src_stride) in
     let source_end := source + w * sizeof_pixel_t in
     let expanded_y := u32 (Z.shiftl (bit_duplication (Z.land y 0xF)) shift) in
     fst (fst (while_source (Z.to_nat w) source_end
       (fun st =>
          let '(D, dest, source) := st in
          let (D', source') :=
            for1 16 (fun i ds =>
              let index := Z.lxor expanded_y (u32 (Z.shiftl (space_4 i) shift)) in
              (copy_pixel sizeof_pixel_t (fst ds) S (dest + index) (snd ds),
               snd ds + sizeof_pixel_t)) 0 (D, source) in
          (D', dest + Z.shiftl PIXELS_PER_TILE shift, source'))
       (D, dest, source))))
     sy 0 (fst b),
   S).

Definition panfrost_store_tiled_image_uint8_t := TILED_STORE_TYPE 0.
Definition panfrost_store_tiled_image_uint16_t := TILED_STORE_TYPE 1.
Definition panfrost_store_tiled_image_uint32_t := TILED_STORE_TYPE 2.
Definition panfrost_store_tiled_image_uint64_t := TILED_STORE_TYPE 3.
Definition panfrost_store_tiled_image_pan_uint128_t := TILED_STORE_TYPE 4.

(** ** The generic routine *)

(** [TILED_UNALIGNED_TYPE(pixel_t, is_store, tile_shift)], with
    [elem = sizeof(pixel_t)]; it is expanded where [sx], [sy], [w] and [h]
    are [unsigned]. *)
Definition TILED_UNALIGNED_TYPE (elem : Z) (is_store : bool) (tile_shift : Z)
    (b : bufs) (dst src sx sy w h dst_stride src_stride : Z) : bufs :=
  let mask := u32 (Z.shiftl 1 tile_shift - 1) in
  for2 (Z.to_nat h) (fun y src_y b =>
    let block_y := u32 (Z.land y (Z.lnot mask)) in
    let block_start_s := u32 (block_y * dst_stride) in
    let source_start := u32 (src_y * src_stride) in
    let expanded_y := bit_duplication (Z.land y mask) in
    for2 (Z.to_nat w) (fun x src_x b =>
      let block_x_s := u32 (Z.shiftr x tile_shift * Z.shiftl 1 (tile_shift * 2)) in
      let index := Z.lxor expanded_y (space_4 (Z.land x mask)) in
      let source := src + source_start + elem * src_x in
      let dest := dst + block_start_s + elem * u32 (block_x_s + index) in
      assign_pixel elem is_store b dest source)
    (s32 sx) 0 b)
  (s32 sy) 0 b.

(** [TILED_UNALIGNED_TYPES(store, shift)]: dispatch on [bpp]; no branch is
    taken for any other value. *)
Definition TILED_UNALIGNED_TYPES (store : bool) (shift : Z) (bpp : Z) (b : bufs)
    (dst src sx sy w h dst_stride src_stride : Z) : bufs :=
  if bpp =? 8 then
    TILED_UNALIGNED_TYPE 1 store shift b dst src sx sy w h dst_stride src_stride
  else if bpp =? 16 then
    TILED_UNALIGNED_TYPE 2 store shift b dst src sx sy w h dst_stride src_stride
  else if bpp =? 32 then
    TILED_UNALIGNED_TYPE 4 store shift b dst src sx sy w h dst_stride src_stride
  else if bpp =? 64 then
    TILED_UNALIGNED_TYPE 8 store shift b dst src sx sy w h dst_stride src_stride
  else if bpp =? 128 then
    TILED_UNALIGNED_TYPE 16 store shift b dst src sx sy w h dst_stride src_stride
  else b.

Definition panfrost_access_tiled_image_generic (b : bufs)
    (dst src sx sy w h dst_stride src_stride : Z)
    (desc : util_format_description) (_is_store : bool) : bufs :=
  let bpp := bits (block desc) in
  if 1 <? width (block desc) then
    let w := DIV_ROUND_UP w (width (block desc)) in
    let h := DIV_ROUND_UP h (height (block desc)) in
    if _is_store
    then TILED_UNALIGNED_TYPES true 2 bpp b dst src sx sy w h dst_stride src_stride
    else TILED_UNALIGNED_TYPES false 2 bpp b dst src sx sy w h dst_stride src_stride
  else
    if _is_store
    then TILED_UNALIGNED_TYPES true 4 bpp b dst src sx sy w h dst_stride src_stride
    else TILED_UNALIGNED_TYPES false 4 bpp b dst src sx sy w h dst_stride src_stride.

(** ** The public entry points *)

(** [OFFSET(src, _x, _y)], with the [orig_x], [orig_y], [src_stride] and
    [bpp] it captures made explicit. *)
Definition OFFSET (orig_x orig_y src_stride bpp : Z) (src _x _y : Z) : Z :=
  src + u32 (u32 (_y - orig_y) * src_stride)
      + u32 (u32 (_x - orig_x) * (bpp / 8)).

(** The steps of [panfrost_store_tiled_image] for a format that is not
    block-compressed, last step first; each one ends by running the steps
    that follow it, unless it returns. *)

Definition store_interior (b : bufs) (dst src orig_x orig_y : Z)
    (x y w h dst_stride src_stride bpp : Z) : bufs :=
  let src' := OFFSET orig_x orig_y src_stride bpp src x y in
  if bpp =? 8 then
    panfrost_store_tiled_image_uint8_t b dst src' x y w h dst_stride src_stride
  else if bpp =? 16 then
    panfrost_store_tiled_image_uint16_t b dst src' x y w h dst_stride src_stride
  else if bpp =? 32 then
    panfrost_store_tiled_image_uint32_t b dst src' x y w h dst_stride src_stride
  else if bpp =? 64 then
    panfrost_store_tiled_image_uint64_t b dst src' x y w h dst_stride src_stride
  else if bpp =? 128 then
    panfrost_store_tiled_image_pan_uint128_t b dst src' x y w h dst_stride src_stride
  else b.

Definition store_right (desc : util_format_description) (b : bufs)
    (dst src orig_x orig_y last_full_tile_x : Z)
    (x y w h dst_stride src_stride : Z) : bufs :=
  let bpp := bits (block desc) in
  if negb (last_full_tile_x =? u32 (x + w)) then
    let dist := u32 (u32 (x + w) - last_full_tile_x) in
    let b := panfrost_access_tiled_image_generic b dst
               (OFFSET orig_x orig_y src_stride bpp src last_full_tile_x y)
               last_full_tile_x y dist h dst_stride src_stride desc true in
    let w := u32 (w - dist) in
    store_interior b dst src orig_x orig_y x y w h dst_stride src_stride bpp
  else
    store_interior b dst src orig_x orig_y x y w h dst_stride src_stride bpp.

Definition store_left (desc : util_format_description) (b : bufs)
    (dst src orig_x orig_y first_full_tile_x last_full_tile_x : Z)
    (x y w h dst_stride src_stride : Z) : bufs :=
  let bpp := bits (block desc) in
  if negb (first_full_tile_x =? x) then
    let dist := MIN2 (u32 (first_full_tile_x - x)) w in
    let b := panfrost_access_tiled_image_generic b dst
               (OFFSET orig_x orig_y src_stride bpp src x y)
               x y dist h dst_stride src_stride desc true in
    if dist =? w then b
    else
      let x := u32 (x + dist) in
      let w := u32 (w - dist) in
      store_right desc b dst src orig_x orig_y last_full_tile_x
        x y w h dst_stride src_stride
  else
    store_right desc b dst src orig_x orig_y last_full_tile_x
      x y w h dst_stride src_stride.

Definition store_bottom (desc : util_format_description) (b : bufs)
    (dst src orig_x orig_y first_full_tile_x last_full_tile_x last_full_tile_y : Z)
    (x y w h dst_stride src_stride : Z) : bufs :=
  let bpp := bits (block desc) in
  if negb (last_full_tile_y =? u32 (y + h)) then
    let dist := u32 (u32 (y + h) - last_full_tile_y) in
    let b := panfrost_access_tiled_image_generic b dst
               (OFFSET orig_x orig_y src_stride bpp src x last_full_tile_y)
               x last_full_tile_y w dist dst_stride src_stride desc true in
    let h := u32 (h - dist) in
    store_left desc b dst src orig_x orig_y first_full_tile_x last_full_tile_x
      x y w h dst_stride src_stride
  else
    store_left desc b dst src orig_x orig_y first_full_tile_x last_full_tile_x
      x y w h dst_stride src_stride.

Definition store_top (desc : util_format_description) (b : bufs)
    (dst src orig_x orig_y : Z)
    (first_full_tile_x first_full_tile_y last_full_tile_x last_full_tile_y : Z)
    (x y w h dst_stride src_stride : Z) : bufs :=
  let bpp := bits (block desc) in
  if negb (first_full_tile_y =? y) then
    let dist := MIN2 (u32 (first_full_tile_y - y)) h in
    let b := panfrost_access_tiled_image_generic b dst
               (OFFSET orig_x orig_y src_stride bpp src x y)
               x y w dist dst_stride src_stride desc true in
    if dist =? h then b
    else
      let y := u32 (y + dist) in
      let h := u32 (h - dist) in
      store_bottom desc b dst src orig_x orig_y
        first_full_tile_x last_full_tile_x last_full_tile_y
        x y w h dst_stride src_stride
  else
    store_bottom desc b dst src orig_x orig_y
      first_full_tile_x last_full_tile_x last_full_tile_y
      x y w h dst_stride src_stride.

(** [panfrost_store_tiled_image]: [b] is (tiled destination, linear
    source).  The format lookup [util_format_description(format)] is external:
    the description it returns is the argument [desc]. *)
Definition panfrost_store_tiled_image (b : bufs)
    (dst src x y w h dst_stride src_stride : Z)
    (desc : util_format_description) : bufs :=
  if 1 <? width (block desc) then
    panfrost_access_tiled_image_generic b dst src x y w h
      dst_stride src_stride desc true
  else
    let first_full_tile_x := u32 (DIV_ROUND_UP x TILE_WIDTH * TILE_WIDTH) in
    let first_full_tile_y := u32 (DIV_ROUND_UP y TILE_HEIGHT * TILE_HEIGHT) in
    let last_full_tile_x := u32 (u32 (x + w) / TILE_WIDTH * TILE_WIDTH) in
    let last_full_tile_y := u32 (u32 (y + h) / TILE_HEIGHT * TILE_HEIGHT) in
    let orig_x := x in
    let orig_y := y in
    store_top desc b dst src orig_x orig_y
      first_full_tile_x first_full_tile_y last_full_tile_x last_full_tile_y
      x y w h dst_stride src_stride.

(** [panfrost_load_tiled_image]: [b] is (linear destination, tiled
    source); the generic routine receives the two buffers, the two pointers
    and the two strides exchanged. *)
Definition panfrost_load_tiled_image (b : bufs)
    (dst src x y w h dst_stride src_stride : Z)
    (desc : util_format_description) : bufs :=
  let r := panfrost_access_tiled_image_generic (snd b, fst b) src dst x y w h
             src_stride dst_stride desc false in
  (snd r, fst r).

(** ** Specification vocabulary *)

(** Position of an element inside its tile, in elements. *)
Definition tile_index (lx ly : Z) : Z :=
  Z.lxor (bit_duplication ly) (space_4 lx).

(** The local coordinates that [tile_index] sends to offset [o]: the odd
    bits of [o] are those of [ly], the even bits those of [lx ^ ly]. *)
Definition odd_bits (o : Z) : Z :=
  Z.b2z (Z.testbit o 1) + 2 * Z.b2z (Z.testbit o 3)
  + 4 * Z.b2z (Z.testbit o 5) + 8 * Z.b2z (Z.testbit o 7).
Definition even_bits (o : Z) : Z :=
  Z.b2z (Z.testbit o 0) + 2 * Z.b2z (Z.testbit o 2)
  + 4 * Z.b2z (Z.testbit o 4) + 8 * Z.b2z (Z.testbit o 6).
Definition tile_coords (o : Z) : Z * Z :=
  (Z.lxor (even_bits o) (odd_bits o), odd_bits o).

(** An assignment [*outp = *inp] recorded as (tiled-side pointer,
    linear-side pointer), and the effect of a sequence of them. *)
Definition op : Type := (Z * Z)%type.

Definition run_ops (elem : Z) (is_store : bool) (ops : list op) (b : bufs) : bufs :=
  fold_left (fun b o => assign_pixel elem is_store b (fst o) (snd o)) ops b.

Definition seqZ (n : nat) : list Z := map Z.of_nat (seq 0 n).

(** The pointers [dest] and [source] of [TILED_UNALIGNED_TYPE] at the pixel
    ([x], [y]) reached with counters ([src_x], [src_y]). *)
Definition unaligned_dest (elem tile_shift dst dst_stride x y : Z) : Z :=
  let mask := u32 (Z.shiftl 1 tile_shift - 1) in
  dst + u32 (u32 (Z.land y (Z.lnot mask)) * dst_stride)
  + elem * u32 (u32 (Z.shiftr x tile_shift * Z.shiftl 1 (tile_shift * 2))
                + Z.lxor (bit_duplication (Z.land y mask)) (space_4 (Z.land x mask))).

Definition unaligned_source (elem src src_stride src_x src_y : Z) : Z :=
  src + u32 (src_y * src_stride) + elem * src_x.

(** The assignments of one run of [TILED_UNALIGNED_TYPE], in order. *)
Definition unaligned_ops (elem tile_shift dst src sx sy w h dst_stride src_stride : Z)
  : list op :=
  flat_map (fun r =>
    map (fun c => (unaligned_dest elem tile_shift dst dst_stride (s32 sx + c) (s32 sy + r),
                   unaligned_source elem src src_stride c r))
        (seqZ (Z.to_nat w)))
    (seqZ (Z.to_nat h)).

(** The pointer written by [TILED_STORE_TYPE] for the [c]-th pixel of the
    source row that goes to image row [y]. *)
Definition aligned_dest (shift dst dst_stride sx y c : Z) : Z :=
  dst + Z.shiftr sx 4 * PIXELS_PER_TILE * Z.shiftl 1 shift
  + u32 (u16 (Z.land y (Z.lnot 0x0f)) * dst_stride)
  + (c / 16) * Z.shiftl PIXELS_PER_TILE shift
  + Z.lxor (u32 (Z.shiftl (bit_duplication (Z.land y 0xF)) shift))
           (u32 (Z.shiftl (space_4 (c mod 16)) shift)).

(** The assignments of one run of [TILED_STORE_TYPE], in order: whole
    groups of 16 pixels per row. *)
Definition aligned_ops (shift dst src sx sy w h dst_stride src_stride : Z) : list op :=
  flat_map (fun r =>
    map (fun c => (aligned_dest shift dst dst_stride (u16 sx) (u16 sy + r) c,
                   src + u32 (r * src_stride) + c * Z.shiftl 1 shift))
        (seqZ (Z.to_nat (16 * ((u16 w + 15) / 16)))))
    (seqZ (Z.to_nat (u16 h))).

(** [a] is one of the [elem] bytes at pointer [p]. *)
Definition covers (elem p a : Z) : Prop := p <= a < p + elem.

(** Rectangles of pixels, and the steps of the store that process them. *)
Record rect : Type := mk_rect { rx : Z; ry : Z; rw : Z; rh : Z }.

Definition in_rect (r : rect) (X Y : Z) : Prop :=
  rx r <= X < rx r + rw r /\ ry r <= Y < ry r + rh r.

Definition disjoint_rects (r1 r2 : rect) : Prop :=
  forall X Y, ~ (in_rect r1 X Y /\ in_rect r2 X Y).

Inductive step_kind : Type := Top | Bottom | Left | Right | Interior.

(** The calls [panfrost_store_tiled_image] makes for a format that is not
    block-compressed, listed by the same control flow as [store_top] to
    [store_interior]. *)
Definition plan_right (last_full_tile_x x y w h : Z) : list (step_kind * rect) :=
  if negb (last_full_tile_x =? u32 (x + w)) then
    let dist := u32 (u32 (x + w) - last_full_tile_x) in
    [ (Right, mk_rect last_full_tile_x y dist h);
      (Interior, mk_rect x y (u32 (w - dist)) h) ]
  else [ (Interior, mk_rect x y w h) ].

Definition plan_left (first_full_tile_x last_full_tile_x x y w h : Z)
  : list (step_kind * rect) :=
  if negb (first_full_tile_x =? x) then
    let dist := MIN2 (u32 (first_full_tile_x - x)) w in
    (Left, mk_rect x y dist h) ::
    (if dist =? w then []
     else plan_right last_full_tile_x (u32 (x + dist)) y (u32 (w - dist)) h)
  else plan_right last_full_tile_x x y w h.

Definition plan_bottom (first_full_tile_x last_full_tile_x last_full_tile_y x y w h : Z)
  : list (step_kind * rect) :=
  if negb (last_full_tile_y =? u32 (y + h)) then
    let dist := u32 (u32 (y + h) - last_full_tile_y) in
    (Bottom, mk_rect x last_full_tile_y w dist) ::
    plan_left first_full_tile_x last_full_tile_x x y w (u32 (h - dist))
  else plan_left first_full_tile_x last_full_tile_x x y w h.

Definition plan_top
    (first_full_tile_x first_full_tile_y last_full_tile_x last_full_tile_y x y w h : Z)
  : list (step_kind * rect) :=
  if negb (first_full_tile_y =? y) then
    let dist := MIN2 (u32 (first_full_tile_y - y)) h in
    (Top, mk_rect x y w dist) ::
    (if dist =? h then []
     else plan_bottom first_full_tile_x last_full_tile_x last_full_tile_y
            x (u32 (y + dist)) w (u32 (h - dist)))
  else plan_bottom first_full_tile_x last_full_tile_x last_full_tile_y x y w h.

Definition store_plan (x y w h : Z) : list (step_kind * rect) :=
  plan_top (u32 (DIV_ROUND_UP x TILE_WIDTH * TILE_WIDTH))
           (u32 (DIV_ROUND_UP y TILE_HEIGHT * TILE_HEIGHT))
           (u32 (u32 (x + w) / TILE_WIDTH * TILE_WIDTH))
           (u32 (u32 (y + h) / TILE_HEIGHT * TILE_HEIGHT))
           x y w h.

(** One call of the plan: the generic routine on a border strip, the
    aligned routine of the element size on the interior. *)
Definition run_step (desc : util_format_description)
    (dst src orig_x orig_y dst_stride src_stride : Z)
    (b : bufs) (s : step_kind * rect) : bufs :=
  let r := snd s in
  match fst s with
  | Interior =>
      store_interior b dst src orig_x orig_y (rx r) (ry r) (rw r) (rh r)
        dst_stride src_stride (bits (block desc))
  | _ =>
      panfrost_access_tiled_image_generic b dst
        (OFFSET orig_x orig_y src_stride (bits (block desc)) src (rx r) (ry r))
        (rx r) (ry r) (rw r) (rh r) dst_stride src_stride desc true
  end.

(** The element sizes the routines are instantiated at. *)
Definition elem_of_bpp (bpp : Z) : option Z :=
  if bpp =? 8 then Some 1
  else if bpp =? 16 then Some 2
  else if bpp =? 32 then Some 4
  else if bpp =? 64 then Some 8
  else if bpp =? 128 then Some 16
  else None.

(** A tiled image with tiles of [2^tile_shift] by [2^tile_shift] elements
    holds the rectangle: the stride covers its width rounded up to whole
    tiles, and the tile rows down to its last one lie within 32-bit
    offsets. *)
Definition padded (elem tile_shift x y w h stride : Z) : Prop :=
  let n := 2 ^ tile_shift in
  elem * (n * ((x + w + n - 1) / n)) <= stride /\
  n * ((y + h + n - 1) / n) * stride <= 2 ^ 32.

(** The tile shift the generic routine uses for a format, and the width and
    height it iterates over: pixels, or blocks for a block-compressed format.
    [sx] and [sy] are used as they are given in both cases. *)
Definition tile_shift_of (desc : util_format_description) : Z :=
  if 1 <? width (block desc) then 2 else 4.

Definition units_w (desc : util_format_description) (w : Z) : Z :=
  if 1 <? width (block desc) then DIV_ROUND_UP w (width (block desc)) else w.

Definition units_h (desc : util_format_description) (h : Z) : Z :=
  if 1 <? width (block desc) then DIV_ROUND_UP h (height (block desc)) else h.

(** The assignment of the element at ([X], [Y]) of a rectangle of origin
    ([x], [y]): from its place in the linear image at [src] to its place in
    the tiled image at [dst]. *)
Definition pixel_op (elem t dst src x y ds ss X Y : Z) : op :=
  (unaligned_dest elem t dst ds X Y, src + (Y - y) * ss + elem * (X - x)).

(** No two assignments of a sequence write a common byte. *)
Definition consistent (elem : Z) (ops : list op) : Prop :=
  forall o o' a, In o ops -> In o' ops ->
    covers elem (fst o) a -> covers elem (fst o') a -> o = o'.

(** The rectangles of [store_plan] with the tile boundaries computed
    without wrap-around. *)
Definition right_spec (x y w h : Z) : list (step_kind * rect) :=
  let d := (x + w) mod 16 in
  if d =? 0 then [ (Interior, mk_rect x y w h) ]
  else [ (Right, mk_rect (x + w - d) y d h); (Interior, mk_rect x y (w - d) h) ].

Definition left_spec (x y w h : Z) : list (step_kind * rect) :=
  if x mod 16 =? 0 then right_spec x y w h
  else
    let d := Z.min (16 - x mod 16) w in
    (Left, mk_rect x y d h) ::
    (if d =? w then [] else right_spec (x + d) y (w - d) h).

Definition bottom_spec (x y w h : Z) : list (step_kind * rect) :=
  let d := (y + h) mod 16 in
  if d =? 0 then left_spec x y w h
  else (Bottom, mk_rect x (y + h - d) w d) :: left_spec x y w (h - d).

Definition top_spec (x y w h : Z) : list (step_kind * rect) :=
  if y mod 16 =? 0 then bottom_spec x y w h
  else
    let d := Z.min (16 - y mod 16) h in
    (Top, mk_rect x y w d) ::
    (if d =? h then [] else bottom_spec x (y + d) w (h - d)).

(** The assignments of one step of the plan and of the whole split store,
    for the element size [2 ^ shift]. *)
Definition step_ops (shift dst src x y ds ss : Z) (s : step_kind * rect) : list op :=
  let r := snd s in
  let srcp := OFFSET x y ss (8 * 2 ^ shift) src (rx r) (ry r) in
  match fst s with
  | Interior => aligned_ops shift dst srcp (rx r) (ry r) (rw r) (rh r) ds ss
  | _ => unaligned_ops (2 ^ shift) 4 dst srcp (rx r) (ry r) (rw r) (rh r) ds ss
  end.

Definition store_ops (shift dst src x y w h ds ss : Z) : list op :=
  flat_map (step_ops shift dst src x y ds ss) (store_plan x y w h).

(** Decidable checks of the two tables and of the tile index, run over
    their whole domain. *)
Definition check_duplication (n i : Z) : bool :=
  (0 <=? bit_duplication n) && (bit_duplication n <? 2 ^ 8)
  && Bool.eqb (Z.testbit (bit_duplication n) (2 * i)) (Z.testbit n i)
  && Bool.eqb (Z.testbit (bit_duplication n) (2 * i + 1)) (Z.testbit n i).

Definition check_space (n i : Z) : bool :=
  (0 <=? space_4 n) && (space_4 n <? 2 ^ 7)
  && Bool.eqb (Z.testbit (space_4 n) (2 * i)) (Z.testbit n i)
  && negb (Z.testbit (space_4 n) (2 * i + 1)).

Definition check_index (lx ly : Z) : bool :=
  (0 <=? tile_index lx ly) && (tile_index lx ly <? 256)
  && (fst (tile_coords (tile_index lx ly)) =? lx)
  && (snd (tile_coords (tile_index lx ly)) =? ly).

Definition check_coords (o : Z) : bool :=
  (0 <=? fst (tile_coords o)) && (fst (tile_coords o) <? 16)
  && (0 <=? snd (tile_coords o)) && (snd (tile_coords o) <? 16)
  && (tile_index (fst (tile_coords o)) (snd (tile_coords o)) =? o).

(** Concrete buffers and formats for the examples: an all-zero buffer, a
    buffer whose byte at offset [a] is [a mod 256], an 8-bit format, a 32-bit
    format and a 4x4-block format of 64 bits per block. *)
Definition mem_zero : mem := fun _ => x00.
Definition mem_ramp : mem :=
  fun a => match Byte.of_N (Z.to_N (a mod 256)) with Some v => v | None => x00 end.
Definition desc_r8 : util_format_description := mk_desc (mk_block 1 1 8).
Definition desc_rgba8 : util_format_description := mk_desc (mk_block 1 1 32).
Definition desc_bc1 : util_format_description := mk_desc (mk_block 4 4 64).

(** ** System values and successors of a block (pan_ir.h) *)

(** The classes of system values: the [type] token of [PAN_SYSVAL], and the
    enumerator [PAN_SYSVAL_##type] it selects. *)
Inductive pan_sysval_class : Type :=
  | VIEWPORT_SCALE | VIEWPORT_OFFSET | TEXTURE_SIZE | SSBO | NUM_WORK_GROUPS | SAMPLER.

Definition PAN_SYSVAL_enum (type : pan_sysval_class) : Z :=
  match type with
  | VIEWPORT_SCALE => 1
  | VIEWPORT_OFFSET => 2
  | TEXTURE_SIZE => 3
  | SSBO => 4
  | NUM_WORK_GROUPS => 5
  | SAMPLER => 7
  end.

(** [PAN_SYSVAL(type, no)], [PAN_SYSVAL_TYPE(sysval)] and
    [PAN_SYSVAL_ID(sysval)] on [unsigned] operands, the type of the entries
    of [sysvals]. *)
Definition PAN_SYSVAL (type : pan_sysval_class) (no : Z) : Z :=
  Z.lor (u32 (Z.shiftl no 16)) (PAN_SYSVAL_enum type).

Definition PAN_SYSVAL_TYPE (sysval : Z) : Z := Z.land sysval 0xffff.

Definition PAN_SYSVAL_ID (sysval : Z) : Z := Z.shiftr sysval 16.

(** [PAN_TXS_SYSVAL_ID(texidx, dim, is_array)] and its three decoders. *)
Definition PAN_TXS_SYSVAL_ID (texidx dim : Z) (is_array : bool) : Z :=
  Z.lor (Z.lor texidx (u32 (Z.shiftl dim 7)))
        (if is_array then Z.shiftl 1 9 else 0).

Definition PAN_SYSVAL_ID_TO_TXS_TEX_IDX (id : Z) : Z := Z.land id 0x7f.

Definition PAN_SYSVAL_ID_TO_TXS_DIM (id : Z) : Z := Z.land (Z.shiftr id 7) 0x3.

Definition PAN_SYSVAL_ID_TO_TXS_IS_ARRAY (id : Z) : bool :=
  negb (Z.land id (Z.shiftl 1 9) =? 0).

(** [pan_foreach_successor(blk, v)] followed by a loop body.  A block
    pointer is an integer, [NULL] is 0; [slot i] is what [*_v] yields at
    [_v = &blk->successors[i]].  The loop reads [*_v] before it tests [_v],
    so it also reads the slot after the array, [slot 2]. *)
Fixpoint foreach_successor_from {A : Type} (fuel : nat) (slot : Z -> Z)
    (body : Z -> A -> A) (i v : Z) (a : A) : A :=
  match fuel with
  | O => a
  | S fuel' =>
      if negb (v =? 0) && (i <? 2)
      then foreach_successor_from fuel' slot body (i + 1) (slot (i + 1)) (body v a)
      else a
  end.

Definition pan_foreach_successor {A : Type} (slot : Z -> Z)
    (body : Z -> A -> A) (a : A) : A :=
  foreach_successor_from 3 slot body 0 (slot 0) a.

(** The pointers of a list up to its first [NULL]. *)
Fixpoint nonnull_prefix (l : list Z) : list Z :=
  match l with
  | [] => []
  | v :: l' => if v =? 0 then [] else v :: nonnull_prefix l'
  end.

(** An assignment with its two sides exchanged: the load of an element is
    the store of the exchanged assignment in exchanged buffers. *)
Definition swap_op (o : op) : op := (snd o, fst o).

(** * Properties *)

(** ** Finite ranges *)

Lemma in_seqZ (n : nat) (z : Z) : In z (seqZ n) <-> 0 <= z < Z.of_nat n.
Proof.
  unfold seqZ. rewrite in_map_iff. split.
  - intros [k [<- Hk]]. apply in_seq in Hk. lia.
  - intros Hz. exists (Z.to_nat z). split; [lia|]. apply in_seq. lia.
Qed.

Lemma forall_range (n : nat) (p : Z -> bool) :
  forallb p (seqZ n) = true -> forall z, 0 <= z < Z.of_nat n -> p z = true.
Proof.
  intros H z Hz. rewrite forallb_forall in H. apply H, in_seqZ, Hz.
Qed.

Lemma forall_range2 (n m : nat) (p : Z -> Z -> bool) :
  forallb (fun a => forallb (p a) (seqZ m)) (seqZ n) = true ->
  forall a b, 0 <= a < Z.of_nat n -> 0 <= b < Z.of_nat m -> p a b = true.
Proof.
  intros H a b Ha Hb.
  apply (forall_range m (p a)); [|exact Hb].
  apply (forall_range n (fun a => forallb (p a) (seqZ m))); assumption.
Qed.

(** ** The lookup tables *)

Lemma check_duplication_all :
  forallb (fun n => forallb (check_duplication n) (seqZ 4)) (seqZ 16) = true.
Proof. vm_compute. reflexivity. Qed.

Lemma check_space_all :
  forallb (fun n => forallb (check_space n) (seqZ 4)) (seqZ 16) = true.
Proof. vm_compute. reflexivity. Qed.

(** C5. For every nibble [n], [bit_duplication n] is the 8-bit value whose
    bits [2i] and [2i+1] are bit [i] of [n], and [space_4 n] is the 7-bit
    value whose bit [2i] is bit [i] of [n] and whose bits [2i+1] are zero. *)
Theorem tables_bit_layout (n : Z) :
  0 <= n < 16 ->
  (0 <= bit_duplication n < 2 ^ 8 /\
   forall i, 0 <= i < 4 ->
     Z.testbit (bit_duplication n) (2 * i) = Z.testbit n i /\
     Z.testbit (bit_duplication n) (2 * i + 1) = Z.testbit n i) /\
  (0 <= space_4 n < 2 ^ 7 /\
   forall i, 0 <= i < 4 ->
     Z.testbit (space_4 n) (2 * i) = Z.testbit n i /\
     Z.testbit (space_4 n) (2 * i + 1) = false).
Proof.
  intros Hn.
  pose proof (forall_range2 16 4 check_duplication check_duplication_all n) as Hd.
  pose proof (forall_range2 16 4 check_space check_space_all n) as Hs.
  split; split.
  - specialize (Hd 0 ltac:(lia) ltac:(lia)). unfold check_duplication in Hd.
    rewrite !andb_true_iff in Hd. lia.
  - intros i Hi. specialize (Hd i ltac:(lia) ltac:(lia)).
    unfold check_duplication in Hd. rewrite !andb_true_iff in Hd.
    destruct Hd as [[_ H1] H2]. split; apply Bool.eqb_prop; assumption.
  - specialize (Hs 0 ltac:(lia) ltac:(lia)). unfold check_space in Hs.
    rewrite !andb_true_iff in Hs. lia.
  - intros i Hi. specialize (Hs i ltac:(lia) ltac:(lia)).
    unfold check_space in Hs. rewrite !andb_true_iff in Hs.
    destruct Hs as [[_ H1] H2]. split.
    + apply Bool.eqb_prop; assumption.
    + apply negb_true_iff; assumption.
Qed.

Lemma tables_bit_layout_witness :
  Z.testbit (bit_duplication 10) 6 = true /\ Z.testbit (space_4 10) 7 = false.
Proof.
  pose proof (tables_bit_layout 10 ltac:(lia)) as [[_ Hd] [_ Hs]].
  split.
  - exact (proj1 (Hd 3 ltac:(lia))).
  - exact (proj2 (Hs 3 ltac:(lia))).
Defined.

(** ** The position of an element inside its tile *)

Lemma check_index_all :
  forallb (fun lx => forallb (check_index lx) (seqZ 16)) (seqZ 16) = true.
Proof. vm_compute. reflexivity. Qed.

Lemma check_coords_all : forallb check_coords (seqZ 256) = true.
Proof. vm_compute. reflexivity. Qed.

Lemma tile_index_coords (lx ly : Z) :
  0 <= lx < 16 -> 0 <= ly < 16 ->
  0 <= tile_index lx ly < 256 /\ tile_coords (tile_index lx ly) = (lx, ly).
Proof.
  intros Hx Hy.
  pose proof (forall_range2 16 16 check_index check_index_all lx ly Hx Hy) as H.
  unfold check_index in H. rewrite !andb_true_iff in H.
  destruct H as [[[H1 H2] H3] H4].
  split; [lia|].
  rewrite (surjective_pairing (tile_coords _)). f_equal; lia.
Qed.

Lemma tile_coords_index (o : Z) :
  0 <= o < 256 ->
  0 <= fst (tile_coords o) < 16 /\ 0 <= snd (tile_coords o) < 16 /\
  tile_index (fst (tile_coords o)) (snd (tile_coords o)) = o.
Proof.
  intros Ho.
  pose proof (forall_range 256 check_coords check_coords_all o Ho) as H.
  unfold check_coords in H. rewrite !andb_true_iff in H. lia.
Qed.

Lemma tile_index_inj (lx ly lx' ly' : Z) :
  0 <= lx < 16 -> 0 <= ly < 16 -> 0 <= lx' < 16 -> 0 <= ly' < 16 ->
  tile_index lx ly = tile_index lx' ly' -> lx = lx' /\ ly = ly'.
Proof.
  intros Hx Hy Hx' Hy' E.
  pose proof (proj2 (tile_index_coords lx ly Hx Hy)) as H1.
  pose proof (proj2 (tile_index_coords lx' ly' Hx' Hy')) as H2.
  rewrite E in H1. rewrite H1 in H2. inversion H2. auto.
Qed.
(** ** Bit operations as arithmetic *)

Lemma mask_ones (t : Z) : 0 <= t < 32 -> u32 (Z.shiftl 1 t - 1) = Z.ones t.
Proof.
  intros Ht. rewrite Z.ones_equiv, Z.shiftl_1_l, <- Z.sub_1_r.
  unfold u32. apply Z.mod_small.
  assert (0 < 2 ^ t) by (apply Z.pow_pos_nonneg; lia).
  assert (2 ^ t < 2 ^ 32) by (apply Z.pow_lt_mono_r; lia).
  lia.
Qed.

Lemma land_ones_mod (t y : Z) : 0 <= t -> Z.land y (Z.ones t) = y mod 2 ^ t.
Proof. intros Ht. apply Z.land_ones, Ht. Qed.

Lemma land_lnot_ones (t y : Z) :
  0 <= t -> Z.land y (Z.lnot (Z.ones t)) = 2 ^ t * (y / 2 ^ t).
Proof.
  intros Ht. rewrite <- Z.ldiff_land, Z.ldiff_ones_r by exact Ht.
  rewrite Z.shiftl_mul_pow2, Z.shiftr_div_pow2 by exact Ht. lia.
Qed.

Lemma u32_small (z : Z) : 0 <= z < 2 ^ 32 -> u32 z = z.
Proof. intros H. unfold u32. apply Z.mod_small, H. Qed.

Lemma u16_small (z : Z) : 0 <= z < 2 ^ 16 -> u16 z = z.
Proof. intros H. unfold u16. apply Z.mod_small, H. Qed.

Lemma s32_small (z : Z) : 0 <= z < 2 ^ 31 -> s32 z = z.
Proof. intros H. unfold s32. rewrite Z.mod_small; lia. Qed.

Lemma u32_range (z : Z) : 0 <= u32 z < 2 ^ 32.
Proof. unfold u32. apply Z.mod_pos_bound. lia. Qed.

(** The tile sizes in use: 4x4 blocks and 16x16 pixels. *)
Lemma tile_index_range (t lx ly : Z) :
  t = 2 \/ t = 4 ->
  0 <= lx < 2 ^ t -> 0 <= ly < 2 ^ t ->
  0 <= tile_index lx ly < 2 ^ t * 2 ^ t.
Proof.
  intros [-> | ->] Hx Hy.
  - assert (Hb : forallb (fun a => forallb (fun b =>
        (0 <=? tile_index a b) && (tile_index a b <? 16)) (seqZ 4)) (seqZ 4) = true)
      by (vm_compute; reflexivity).
    pose proof (forall_range2 4 4 _ Hb lx ly) as H. cbv beta in H.
    rewrite andb_true_iff in H. change (2 ^ 2) with 4 in *. lia.
  - change (2 ^ 4) with 16 in *.
    pose proof (proj1 (tile_index_coords lx ly Hx Hy)). lia.
Qed.

Lemma tile_index_inj_t (t lx ly lx' ly' : Z) :
  t = 2 \/ t = 4 ->
  0 <= lx < 2 ^ t -> 0 <= ly < 2 ^ t -> 0 <= lx' < 2 ^ t -> 0 <= ly' < 2 ^ t ->
  tile_index lx ly = tile_index lx' ly' -> lx = lx' /\ ly = ly'.
Proof.
  intros [-> | ->] Hx Hy Hx' Hy'.
  - change (2 ^ 2) with 4 in *. apply tile_index_inj; lia.
  - change (2 ^ 4) with 16 in *. apply tile_index_inj; lia.
Qed.

(** [unaligned_dest] at a pixel with non-negative coordinates. *)
Lemma unaligned_dest_div_mod (elem t dst ds X Y : Z) :
  0 <= t < 16 -> 0 <= X -> 0 <= Y ->
  unaligned_dest elem t dst ds X Y =
  dst + u32 (u32 (2 ^ t * (Y / 2 ^ t)) * ds)
  + elem * u32 (u32 (X / 2 ^ t * (2 ^ t * 2 ^ t))
                + tile_index (X mod 2 ^ t) (Y mod 2 ^ t)).
Proof.
  intros Ht HX HY. unfold unaligned_dest, tile_index. cbv zeta.
  rewrite mask_ones by lia.
  rewrite !land_ones_mod, land_lnot_ones by lia.
  rewrite Z.shiftr_div_pow2, Z.shiftl_1_l by lia.
  replace (2 ^ (t * 2)) with (2 ^ t * 2 ^ t)
    by (rewrite <- Z.pow_add_r by lia; f_equal; lia).
  reflexivity.
Qed.
(** ** The layout of a padded tiled image *)

Lemma layout_inj (elem n p ds A A' B B' i i' a : Z) :
  0 < elem -> 0 < n ->
  0 <= A -> 0 <= A' -> 0 <= B < p -> 0 <= B' < p ->
  0 <= i < n * n -> 0 <= i' < n * n ->
  elem * (n * p) <= ds ->
  n * A * ds + elem * (B * (n * n) + i) <= a
    < n * A * ds + elem * (B * (n * n) + i) + elem ->
  n * A' * ds + elem * (B' * (n * n) + i') <= a
    < n * A' * ds + elem * (B' * (n * n) + i') + elem ->
  A = A' /\ B = B' /\ i = i'.
Proof.
  intros He Hn HA HA' HB HB' Hi Hi' Hds [L1 U1] [L2 U2].
  assert (Hrow : forall B i, 0 <= B < p -> 0 <= i < n * n ->
             0 <= elem * (B * (n * n) + i) /\
             elem * (B * (n * n) + i) + elem <= n * ds).
  { intros b j Hb Hj. split; [nia|].
    assert (b * (n * n) + j + 1 <= p * (n * n)) by nia.
    assert (elem * (b * (n * n) + j + 1) <= elem * (p * (n * n)))
      by (apply Z.mul_le_mono_nonneg_l; lia).
    nia. }
  pose proof (Hrow B i HB Hi) as [R1 R2].
  pose proof (Hrow B' i' HB' Hi') as [R1' R2'].
  assert (0 <= ds) by nia.
  assert (EA : A = A').
  { destruct (Z.lt_trichotomy A A') as [Hlt | [Heq | Hgt]]; [exfalso | exact Heq | exfalso].
    - assert (n * (A + 1) * ds <= n * A' * ds) by nia. nia.
    - assert (n * (A' + 1) * ds <= n * A * ds) by nia. nia. }
  subst A'.
  assert (EB : B = B').
  { destruct (Z.lt_trichotomy B B') as [Hlt | [Heq | Hgt]]; [exfalso | exact Heq | exfalso].
    - assert (elem * ((B + 1) * (n * n)) <= elem * (B' * (n * n)))
        by (apply Z.mul_le_mono_nonneg_l; nia). nia.
    - assert (elem * ((B' + 1) * (n * n)) <= elem * (B * (n * n)))
        by (apply Z.mul_le_mono_nonneg_l; nia). nia. }
  subst B'.
  repeat split; try reflexivity.
  destruct (Z.lt_trichotomy i i') as [Hlt | [Heq | Hgt]]; [exfalso | exact Heq | exfalso]; nia.
Qed.

Section Padded.
Variables (elem t x y w h ds : Z).
Hypothesis Ht : t = 2 \/ t = 4.
Hypothesis Helem : 0 < elem.
Hypothesis Hx : 0 <= x.
Hypothesis Hy : 0 <= y.
Hypothesis Hpad : padded elem t x y w h ds.

Lemma padded_facts (X Y : Z) :
  x <= X < x + w -> y <= Y < y + h ->
  0 < 2 ^ t /\
  0 <= X / 2 ^ t < (x + w + 2 ^ t - 1) / 2 ^ t /\
  0 <= Y / 2 ^ t < (y + h + 2 ^ t - 1) / 2 ^ t /\
  elem * (2 ^ t * ((x + w + 2 ^ t - 1) / 2 ^ t)) <= ds /\
  X < 2 ^ 30 /\ Y < 2 ^ 30 /\
  2 ^ t * (Y / 2 ^ t) * ds < 2 ^ 32 /\
  X / 2 ^ t * (2 ^ t * 2 ^ t) + 2 ^ t * 2 ^ t <= 2 ^ 32.
Proof.
  intros HX HY.
  pose proof Hpad as [P1 P2].
  set (n := 2 ^ t) in *.
  set (p := (x + w + n - 1) / n) in *.
  set (q := (y + h + n - 1) / n) in *.
  assert (Hn : n = 4 \/ n = 16)
    by (unfold n; destruct Ht as [-> | ->]; [left|right]; reflexivity).
  assert (Hn0 : 0 < n) by lia.
  assert (HXn : 0 <= X / n < p).
  { unfold p. split; [apply Z.div_pos; lia|].
    apply Z.div_lt_upper_bound; [lia|].
    pose proof (Z.mul_div_le (x + w + n - 1) n Hn0) as M1.
    pose proof (Z.mod_pos_bound (x + w + n - 1) n Hn0) as M2.
    pose proof (Z.div_mod (x + w + n - 1) n ltac:(lia)) as M3.
    nia. }
  assert (HYn : 0 <= Y / n < q).
  { unfold q. split; [apply Z.div_pos; lia|].
    apply Z.div_lt_upper_bound; [lia|].
    pose proof (Z.mod_pos_bound (y + h + n - 1) n Hn0) as M2.
    pose proof (Z.div_mod (y + h + n - 1) n ltac:(lia)) as M3.
    nia. }
  assert (Hp1 : 1 <= p) by lia.
  assert (Hq1 : 1 <= q) by lia.
  assert (Hds : n <= ds) by nia.
  assert (HnQ : n * q <= 2 ^ 30) by nia.
  assert (Hnds : n * ds <= 2 ^ 32) by nia.
  assert (HnP : n * p <= 2 ^ 30) by nia.
  pose proof (Z.mod_pos_bound X n Hn0) as MX.
  pose proof (Z.div_mod X n ltac:(lia)) as DX.
  pose proof (Z.mod_pos_bound Y n Hn0) as MY.
  pose proof (Z.div_mod Y n ltac:(lia)) as DY.
  assert (n * (Y / n + 1) * ds <= n * q * ds) by nia.
  assert ((X / n + 1) * (n * n) <= p * (n * n)) by nia.
  assert (elem * (n * p) * n <= ds * n) by nia.
  repeat split; try lia; nia.
Qed.

Lemma unaligned_dest_padded (dst X Y : Z) :
  x <= X < x + w -> y <= Y < y + h ->
  unaligned_dest elem t dst ds X Y =
  dst + 2 ^ t * (Y / 2 ^ t) * ds
  + elem * (X / 2 ^ t * (2 ^ t * 2 ^ t)
            + tile_index (X mod 2 ^ t) (Y mod 2 ^ t)).
Proof.
  intros HX HY.
  destruct (padded_facts X Y HX HY) as (Hn & HXn & HYn & Hds & X30 & Y30 & Hrow & Hcol).
  rewrite unaligned_dest_div_mod by (destruct Ht; lia).
  pose proof (Z.mod_pos_bound X (2 ^ t) Hn) as MX.
  pose proof (Z.mod_pos_bound Y (2 ^ t) Hn) as MY.
  pose proof (tile_index_range t (X mod 2 ^ t) (Y mod 2 ^ t) Ht MX MY) as Hi.
  set (n := 2 ^ t) in *.
  set (p := (x + w + n - 1) / n) in *.
  pose proof (Z.div_mod Y n ltac:(lia)) as DY.
  assert (0 <= elem * (n * p)) by (repeat apply Z.mul_nonneg_nonneg; lia).
  assert (0 <= ds) by lia.
  assert (0 <= n * (Y / n)) by (apply Z.mul_nonneg_nonneg; lia).
  assert (0 <= n * (Y / n) * ds) by (apply Z.mul_nonneg_nonneg; lia).
  assert (0 <= X / n * (n * n)) by (repeat apply Z.mul_nonneg_nonneg; lia).
  rewrite (u32_small (n * (Y / n))) by lia.
  rewrite (u32_small (n * (Y / n) * ds)) by lia.
  rewrite (u32_small (X / n * (n * n))) by lia.
  rewrite u32_small by lia.
  reflexivity.
Qed.

Lemma unaligned_dest_inj (dst X Y X' Y' a : Z) :
  x <= X < x + w -> y <= Y < y + h ->
  x <= X' < x + w -> y <= Y' < y + h ->
  covers elem (unaligned_dest elem t dst ds X Y) a ->
  covers elem (unaligned_dest elem t dst ds X' Y') a ->
  X = X' /\ Y = Y'.
Proof.
  intros HX HY HX' HY'. unfold covers.
  rewrite !unaligned_dest_padded by assumption.
  destruct (padded_facts X Y HX HY) as (Hn & HXn & HYn & Hds & _).
  destruct (padded_facts X' Y' HX' HY') as (_ & HXn' & HYn' & _).
  pose proof (Z.mod_pos_bound X (2 ^ t) Hn) as MX.
  pose proof (Z.mod_pos_bound Y (2 ^ t) Hn) as MY.
  pose proof (Z.mod_pos_bound X' (2 ^ t) Hn) as MX'.
  pose proof (Z.mod_pos_bound Y' (2 ^ t) Hn) as MY'.
  pose proof (tile_index_range t _ _ Ht MX MY) as Hi.
  pose proof (tile_index_range t _ _ Ht MX' MY') as Hi'.
  set (n := 2 ^ t) in *.
  set (p := (x + w + n - 1) / n) in *.
  intros C1 C2.
  destruct (layout_inj elem n p ds (Y / n) (Y' / n) (X / n) (X' / n)
              (tile_index (X mod n) (Y mod n)) (tile_index (X' mod n) (Y' mod n))
              (a - dst)) as (EA & EB & EI); try lia.
  apply (tile_index_inj_t t) in EI; try assumption.
  destruct EI as [E1 E2].
  pose proof (Z.div_mod X n ltac:(lia)). pose proof (Z.div_mod X' n ltac:(lia)).
  pose proof (Z.div_mod Y n ltac:(lia)). pose proof (Z.div_mod Y' n ltac:(lia)).
  split; congruence.
Qed.
End Padded.
(** ** Loops as folds, routines as sequences of assignments *)

Lemma fold_left_ext_in {A B : Type} (f g : A -> B -> A) (l : list B) (a : A) :
  (forall a x, In x l -> f a x = g a x) -> fold_left f l a = fold_left g l a.
Proof.
  revert a. induction l as [|x l IH]; intros a H; simpl; [reflexivity|].
  rewrite (H a x (or_introl eq_refl)). apply IH.
  intros a' y Hy. apply H. right. exact Hy.
Qed.

Lemma fold_left_map {A B C : Type} (f : A -> C -> A) (g : B -> C) (l : list B) (a : A) :
  fold_left f (map g l) a = fold_left (fun a x => f a (g x)) l a.
Proof. revert a. induction l as [|x l IH]; intros a; simpl; [reflexivity | apply IH]. Qed.

Lemma for2_from {A : Type} (n s : nat) (body : Z -> Z -> A -> A) (i j : Z) (a : A) :
  for2 n body (i + Z.of_nat s) (j + Z.of_nat s) a =
  fold_left (fun a k => body (i + k) (j + k) a) (map Z.of_nat (seq s n)) a.
Proof.
  revert s a. induction n as [|n IH]; intros s a; simpl; [reflexivity|].
  rewrite <- IH. f_equal; lia.
Qed.

Lemma for2_seq {A : Type} (n : nat) (body : Z -> Z -> A -> A) (i j : Z) (a : A) :
  for2 n body i j a = fold_left (fun a k => body (i + k) (j + k) a) (seqZ n) a.
Proof.
  unfold seqZ. rewrite <- for2_from. simpl. rewrite !Z.add_0_r. reflexivity.
Qed.

Lemma for1_from {A : Type} (n s : nat) (body : Z -> A -> A) (i : Z) (a : A) :
  for1 n body (i + Z.of_nat s) a =
  fold_left (fun a k => body (i + k) a) (map Z.of_nat (seq s n)) a.
Proof.
  revert s a. induction n as [|n IH]; intros s a; simpl; [reflexivity|].
  rewrite <- IH. f_equal; lia.
Qed.

Lemma for1_seq {A : Type} (n : nat) (body : Z -> A -> A) (a : A) :
  for1 n body 0 a = fold_left (fun a k => body k a) (seqZ n) a.
Proof.
  unfold seqZ. change 0 with (0 + Z.of_nat 0) at 1. rewrite for1_from.
  apply fold_left_ext_in. intros; reflexivity.
Qed.

Lemma run_ops_app (elem : Z) (s : bool) (l1 l2 : list op) (b : bufs) :
  run_ops elem s (l1 ++ l2) b = run_ops elem s l2 (run_ops elem s l1 b).
Proof. unfold run_ops. apply fold_left_app. Qed.

Lemma run_ops_flat_map {A : Type} (elem : Z) (s : bool) (g : A -> list op)
    (l : list A) (b : bufs) :
  run_ops elem s (flat_map g l) b = fold_left (fun b x => run_ops elem s (g x) b) l b.
Proof.
  revert b. induction l as [|x l IH]; intros b; simpl; [reflexivity|].
  rewrite run_ops_app. apply IH.
Qed.

Lemma run_ops_map {A : Type} (elem : Z) (s : bool) (g : A -> op) (l : list A) (b : bufs) :
  run_ops elem s (map g l) b =
  fold_left (fun b x => assign_pixel elem s b (fst (g x)) (snd (g x))) l b.
Proof. unfold run_ops. apply fold_left_map. Qed.

(** [TILED_UNALIGNED_TYPE] performs the assignments of [unaligned_ops]. *)
Lemma unaligned_run (elem : Z) (s : bool) (t : Z) (b : bufs)
    (dst src sx sy w h ds ss : Z) :
  TILED_UNALIGNED_TYPE elem s t b dst src sx sy w h ds ss =
  run_ops elem s (unaligned_ops elem t dst src sx sy w h ds ss) b.
Proof.
  unfold TILED_UNALIGNED_TYPE, unaligned_ops. cbv zeta.
  rewrite for2_seq, run_ops_flat_map.
  apply fold_left_ext_in. intros b' r _.
  rewrite for2_seq, run_ops_map.
  apply fold_left_ext_in. intros b'' c _. simpl fst. simpl snd.
  unfold unaligned_dest, unaligned_source. cbv zeta.
  rewrite !Z.add_0_l. reflexivity.
Qed.

(** What a sequence of assignments leaves in the buffers. *)
Lemma run_ops_store_src (elem : Z) (ops : list op) (b : bufs) :
  snd (run_ops elem true ops b) = snd b.
Proof.
  revert b. induction ops as [|o ops IH]; intros [D S]; [reflexivity|].
  change (run_ops elem true (o :: ops) (D, S))
    with (run_ops elem true ops (assign_pixel elem true (D, S) (fst o) (snd o))).
  rewrite IH. reflexivity.
Qed.

Lemma run_ops_load_src (elem : Z) (ops : list op) (b : bufs) :
  fst (run_ops elem false ops b) = fst b.
Proof.
  revert b. induction ops as [|o ops IH]; intros [D S]; [reflexivity|].
  change (run_ops elem false (o :: ops) (D, S))
    with (run_ops elem false ops (assign_pixel elem false (D, S) (fst o) (snd o))).
  rewrite IH. reflexivity.
Qed.

Lemma run_ops_store_cases (elem : Z) (ops : list op) (D S : mem) (a : Z) :
  (exists o, In o ops /\ covers elem (fst o) a /\
     fst (run_ops elem true ops (D, S)) a = S (snd o + (a - fst o))) \/
  ((forall o, In o ops -> ~ covers elem (fst o) a) /\
     fst (run_ops elem true ops (D, S)) a = D a).
Proof.
  induction ops as [|o ops IH] using rev_ind.
  - right. split; [intros o []|reflexivity].
  - rewrite run_ops_app.
    pose proof (run_ops_store_src elem ops (D, S)) as HS. simpl in HS.
    destruct (run_ops elem true ops (D, S)) as [D' S'] eqn:E. simpl in HS. subst S'.
    simpl. unfold copy_pixel.
    destruct ((fst o <=? a) && (a <? fst o + elem)) eqn:C.
    + left. exists o. split; [apply in_or_app; right; left; reflexivity|].
      split; [unfold covers; apply andb_true_iff in C; lia | reflexivity].
    + simpl in IH. destruct IH as [(o' & Hin & Hc & Hv) | (Hn & Hv)].
      * left. exists o'. split; [apply in_or_app; left; exact Hin|]. split; assumption.
      * right. split; [|exact Hv].
        intros o' Hin. apply in_app_or in Hin. destruct Hin as [Hin | [<- | []]].
        -- apply Hn, Hin.
        -- unfold covers. apply andb_false_iff in C. lia.
Qed.

Lemma run_ops_load_cases (elem : Z) (ops : list op) (D S : mem) (a : Z) :
  (exists o, In o ops /\ covers elem (snd o) a /\
     snd (run_ops elem false ops (D, S)) a = D (fst o + (a - snd o))) \/
  ((forall o, In o ops -> ~ covers elem (snd o) a) /\
     snd (run_ops elem false ops (D, S)) a = S a).
Proof.
  induction ops as [|o ops IH] using rev_ind.
  - right. split; [intros o []|reflexivity].
  - rewrite run_ops_app.
    pose proof (run_ops_load_src elem ops (D, S)) as HD. simpl in HD.
    destruct (run_ops elem false ops (D, S)) as [D' S'] eqn:E. simpl in HD. subst D'.
    simpl. unfold copy_pixel.
    destruct ((snd o <=? a) && (a <? snd o + elem)) eqn:C.
    + left. exists o. split; [apply in_or_app; right; left; reflexivity|].
      split; [unfold covers; apply andb_true_iff in C; lia | reflexivity].
    + simpl in IH. destruct IH as [(o' & Hin & Hc & Hv) | (Hn & Hv)].
      * left. exists o'. split; [apply in_or_app; left; exact Hin|]. split; assumption.
      * right. split; [|exact Hv].
        intros o' Hin. apply in_app_or in Hin. destruct Hin as [Hin | [<- | []]].
        -- apply Hn, Hin.
        -- unfold covers. apply andb_false_iff in C. lia.
Qed.

(** Two sequences with the same assignments, none of which disagree on a
    byte, leave the same destination. *)

Lemma run_ops_store_same (elem : Z) (ops ops' : list op) (D S : mem) (a : Z) :
  (forall o, In o ops <-> In o ops') -> consistent elem ops ->
  fst (run_ops elem true ops (D, S)) a = fst (run_ops elem true ops' (D, S)) a.
Proof.
  intros Hin Hc.
  destruct (run_ops_store_cases elem ops D S a) as [(o & I & C & V) | (N & V)];
  destruct (run_ops_store_cases elem ops' D S a) as [(o' & I' & C' & V') | (N' & V')].
  - rewrite V, V'. apply Hin in I'. rewrite (Hc o o' a I I' C C'). reflexivity.
  - exfalso. apply (N' o); [apply Hin, I | exact C].
  - exfalso. apply (N o'); [apply Hin, I' | exact C'].
  - rewrite V, V'. reflexivity.
Qed.
(** ** The aligned routine as a sequence of assignments *)

Lemma seq_from_shift (s m : nat) :
  map Z.of_nat (seq s m) = map (fun i => Z.of_nat s + i) (seqZ m).
Proof.
  unfold seqZ. induction m as [|m IH]; [reflexivity|].
  rewrite !seq_S, !map_app, IH. simpl. f_equal. f_equal. lia.
Qed.

Lemma seqZ_app (n m : nat) :
  seqZ (n + m) = seqZ n ++ map (fun i => Z.of_nat n + i) (seqZ m).
Proof.
  unfold seqZ at 1 2. rewrite seq_app, map_app. f_equal.
  apply seq_from_shift.
Qed.

Lemma seqZ_S (k : nat) : seqZ (S k) = seqZ k ++ [Z.of_nat k].
Proof. unfold seqZ. rewrite seq_S, map_app. reflexivity. Qed.

Lemma map_seqZ_groups {A : Type} (f : Z -> A) (k : nat) :
  map f (seqZ (k * 16)) =
  flat_map (fun j => map (fun i => f (16 * j + i)) (seqZ 16)) (seqZ k).
Proof.
  induction k as [|k IH]; [reflexivity|].
  replace (S k * 16)%nat with (k * 16 + 16)%nat by lia.
  rewrite (seqZ_S k), flat_map_app.
  rewrite seqZ_app, map_app, IH. f_equal.
  cbn [flat_map]. rewrite app_nil_r, map_map.
  apply map_ext. intros i. f_equal. lia.
Qed.

Lemma store_group_from (elem : Z) (Sm : mem) (idx : Z -> Z) (dest source : Z)
    (n s : nat) (D : mem) :
  for1 n (fun i ds => (copy_pixel elem (fst ds) Sm (dest + idx i) (snd ds),
                       snd ds + elem))
       (Z.of_nat s) (D, source + Z.of_nat s * elem)
  = (fst (run_ops elem true
            (map (fun i => (dest + idx i, source + i * elem)) (map Z.of_nat (seq s n)))
            (D, Sm)),
     source + Z.of_nat (s + n) * elem).
Proof.
  revert s D. induction n as [|n IH]; intros s D.
  - simpl. f_equal. f_equal. lia.
  - cbn [for1 seq map fst snd].
    replace (Z.of_nat s + 1) with (Z.of_nat (S s)) by lia.
    replace (source + Z.of_nat s * elem + elem) with (source + Z.of_nat (S s) * elem) by lia.
    rewrite IH. f_equal. f_equal. lia.
Qed.

Lemma store_group (elem : Z) (Sm : mem) (idx : Z -> Z) (dest source : Z) (D : mem) :
  for1 16 (fun i ds => (copy_pixel elem (fst ds) Sm (dest + idx i) (snd ds),
                        snd ds + elem)) 0 (D, source)
  = (fst (run_ops elem true
            (map (fun i => (dest + idx i, source + i * elem)) (seqZ 16)) (D, Sm)),
     source + 16 * elem).
Proof.
  pose proof (store_group_from elem Sm idx dest source 16 0 D) as H.
  change (Z.of_nat 0) with 0 in H. rewrite Z.mul_0_l, Z.add_0_r in H.
  exact H.
Qed.

Lemma store_row_groups (elem T : Z) (Sm : mem) (idx : Z -> Z) (dest0 source0 w : Z) :
  0 < elem -> 0 <= w ->
  forall (fuel g : nat) (D : mem),
    (g <= Z.to_nat ((w + 15) / 16))%nat ->
    (Z.to_nat ((w + 15) / 16) - g <= fuel)%nat ->
    fst (fst (while_source fuel (source0 + w * elem)
      (fun st =>
         let '(D, dest, source) := st in
         let (D', source') :=
           for1 16 (fun i ds => (copy_pixel elem (fst ds) Sm (dest + idx i) (snd ds),
                                 snd ds + elem)) 0 (D, source) in
         (D', dest + T, source'))
      (D, dest0 + Z.of_nat g * T, source0 + Z.of_nat g * (16 * elem))))
    = fst (run_ops elem true
        (flat_map (fun j =>
           map (fun i => (dest0 + j * T + idx i, source0 + j * (16 * elem) + i * elem))
               (seqZ 16))
           (map Z.of_nat (seq g (Z.to_nat ((w + 15) / 16) - g))))
        (D, Sm)).
Proof.
  intros He Hw.
  set (k := Z.to_nat ((w + 15) / 16)).
  assert (Hk : forall g : nat, Z.of_nat g * 16 < w <-> (g < k)%nat).
  { intros g. subst k. split; intros H.
    - apply Nat2Z.inj_lt. rewrite Z2Nat.id by (apply Z.div_pos; lia).
      pose proof (Z.div_mod (w + 15) 16 ltac:(lia)).
      pose proof (Z.mod_pos_bound (w + 15) 16 ltac:(lia)). lia.
    - apply Nat2Z.inj_lt in H. rewrite Z2Nat.id in H by (apply Z.div_pos; lia).
      pose proof (Z.div_mod (w + 15) 16 ltac:(lia)).
      pose proof (Z.mod_pos_bound (w + 15) 16 ltac:(lia)). lia. }
  induction fuel as [|fuel IH]; intros g D Hg Hf.
  - replace (k - g)%nat with 0%nat by lia. reflexivity.
  - cbn [while_source snd].
    destruct (Z.ltb_spec (source0 + Z.of_nat g * (16 * elem)) (source0 + w * elem)) as [Hlt | Hge].
    + assert (Hgk : (g < k)%nat) by (apply Hk; nia).
      rewrite store_group.
      replace (dest0 + Z.of_nat g * T + T) with (dest0 + Z.of_nat (S g) * T) by lia.
      replace (source0 + Z.of_nat g * (16 * elem) + 16 * elem)
        with (source0 + Z.of_nat (S g) * (16 * elem)) by lia.
      rewrite IH by lia.
      replace (k - g)%nat with (S (k - S g)) by lia.
      cbn [seq map flat_map]. rewrite run_ops_app.
      pose proof (run_ops_store_src elem
        (map (fun i => (dest0 + Z.of_nat g * T + idx i,
                        source0 + Z.of_nat g * (16 * elem) + i * elem)) (seqZ 16)) (D, Sm)) as HS.
      destruct (run_ops elem true _ (D, Sm)) as [D1 S1] eqn:E in HS |- *.
      simpl in HS. subst S1. reflexivity.
    + assert (Hgk : ~ (g < k)%nat) by (rewrite <- Hk; nia).
      replace (k - g)%nat with 0%nat by lia. reflexivity.
Qed.
Lemma fold_rows_store {A : Type} (elem : Z) (g : A -> list op) (l : list A) (D Sm : mem) :
  fold_left (fun b r => run_ops elem true (g r) b) l (D, Sm) =
  (fold_left (fun D r => fst (run_ops elem true (g r) (D, Sm))) l D, Sm).
Proof.
  revert D. induction l as [|r l IH]; intros D; [reflexivity|].
  cbn [fold_left].
  pose proof (run_ops_store_src elem (g r) (D, Sm)) as HS.
  destruct (run_ops elem true (g r) (D, Sm)) as [D1 S1]. simpl in HS. subst S1.
  apply IH.
Qed.

(** [TILED_STORE_TYPE] performs the assignments of [aligned_ops]. *)
Lemma aligned_run (shift : Z) (b : bufs) (dst src sx sy w h ds ss : Z) :
  0 <= shift ->
  TILED_STORE_TYPE shift b dst src sx sy w h ds ss =
  run_ops (Z.shiftl 1 shift) true (aligned_ops shift dst src sx sy w h ds ss) b.
Proof.
  intros Hs. destruct b as [D Sm].
  unfold TILED_STORE_TYPE, aligned_ops. cbv zeta. cbn [fst snd].
  rewrite run_ops_flat_map, fold_rows_store, for2_seq. f_equal.
  apply fold_left_ext_in. intros D' r Hr.
  assert (He : 0 < Z.shiftl 1 shift)
    by (rewrite Z.shiftl_1_l; apply Z.pow_pos_nonneg; lia).
  assert (Hw : 0 <= u16 w) by (unfold u16; apply Z.mod_pos_bound; lia).
  set (k := Z.to_nat ((u16 w + 15) / 16)).
  assert (Hk : (k <= Z.to_nat (u16 w))%nat).
  { subst k. apply Z2Nat.inj_le; [apply Z.div_pos; lia | lia |].
    pose proof (Z.div_mod (u16 w + 15) 16 ltac:(lia)).
    pose proof (Z.mod_pos_bound (u16 w + 15) 16 ltac:(lia)). lia. }
  pose proof (store_row_groups (Z.shiftl 1 shift) (Z.shiftl PIXELS_PER_TILE shift) Sm
    (fun i => Z.lxor (u32 (Z.shiftl (bit_duplication (Z.land (u16 sy + r) 15)) shift))
                     (u32 (Z.shiftl (space_4 i) shift)))
    (dst + Z.shiftr (u16 sx) 4 * PIXELS_PER_TILE * Z.shiftl 1 shift
     + u32 (u16 (Z.land (u16 sy + r) (Z.lnot 15)) * ds))
    (src + u32 ((0 + r) * ss)) (u16 w) He Hw (Z.to_nat (u16 w)) 0%nat D'
    ltac:(lia) ltac:(fold k; lia)) as H.
  fold k in H. cbn [Z.of_nat] in H. rewrite !Z.mul_0_l, !Z.add_0_r in H.
  rewrite H. clear H. f_equal. f_equal.
  replace (Z.to_nat (16 * ((u16 w + 15) / 16))) with (k * 16)%nat
    by (subst k; rewrite Z2Nat.inj_mul by (try apply Z.div_pos; lia); lia).
  rewrite map_seqZ_groups, Nat.sub_0_r. fold (seqZ k).
  apply flat_map_ext. intros j.
  apply map_ext_in. intros i Hi. apply in_seqZ in Hi.
  unfold aligned_dest.
  replace ((16 * j + i) / 16) with j
    by (apply Z.div_unique with i; lia).
  replace ((16 * j + i) mod 16) with i
    by (apply Z.mod_unique with j; lia).
  rewrite Z.add_0_l. f_equal; lia.
Qed.
(** ** The aligned routine against the generic one *)

Lemma bit_duplication_range (n : Z) : 0 <= n < 16 -> 0 <= bit_duplication n < 256.
Proof.
  intros Hn.
  pose proof (forall_range2 16 4 check_duplication check_duplication_all n 0 Hn ltac:(lia)) as H.
  unfold check_duplication in H. rewrite !andb_true_iff in H. lia.
Qed.

Lemma space_4_range (n : Z) : 0 <= n < 16 -> 0 <= space_4 n < 128.
Proof.
  intros Hn.
  pose proof (forall_range2 16 4 check_space check_space_all n 0 Hn ltac:(lia)) as H.
  unfold check_space in H. rewrite !andb_true_iff in H. lia.
Qed.

Lemma shifted_index (shift lx ly : Z) :
  0 <= shift <= 4 -> 0 <= lx < 16 -> 0 <= ly < 16 ->
  Z.lxor (u32 (Z.shiftl (bit_duplication ly) shift))
         (u32 (Z.shiftl (space_4 lx) shift))
  = tile_index lx ly * 2 ^ shift.
Proof.
  intros Hs Hx Hy.
  pose proof (bit_duplication_range ly Hy) as Hd.
  pose proof (space_4_range lx Hx) as Hp.
  assert (H2 : 0 < 2 ^ shift <= 2 ^ 4)
    by (split; [apply Z.pow_pos_nonneg; lia | apply Z.pow_le_mono_r; lia]).
  change (2 ^ 4) with 16 in H2.
  rewrite !Z.shiftl_mul_pow2 by lia.
  rewrite !u32_small by (change (2 ^ 32) with 4294967296; nia).
  rewrite <- !Z.shiftl_mul_pow2 by lia.
  unfold tile_index. rewrite Z.shiftl_lxor. reflexivity.
Qed.

Lemma aligned_dest_unaligned (shift dst ds sx y c : Z) :
  0 <= shift <= 4 ->
  0 <= sx < 2 ^ 16 -> sx mod 16 = 0 ->
  0 <= y < 2 ^ 16 -> 0 <= c < 2 ^ 16 ->
  aligned_dest shift dst ds sx y c =
  unaligned_dest (2 ^ shift) 4 dst ds (sx + c) y.
Proof.
  intros Hs Hsx Hal Hy Hc.
  rewrite unaligned_dest_div_mod by lia.
  unfold aligned_dest, PIXELS_PER_TILE, TILE_WIDTH, TILE_HEIGHT.
  change (Z.lnot 15) with (Z.lnot (Z.ones 4)). change 15 with (Z.ones 4).
  rewrite land_lnot_ones, land_ones_mod by lia.
  rewrite Z.shiftr_div_pow2, Z.shiftl_1_l, Z.shiftl_mul_pow2 by lia.
  change (2 ^ 4) with 16. change (2 ^ 16) with 65536 in *.
  pose proof (Z.div_mod sx 16 ltac:(lia)) as Dsx.
  pose proof (Z.div_mod c 16 ltac:(lia)) as Dc.
  pose proof (Z.mod_pos_bound c 16 ltac:(lia)) as Mc.
  assert (Ediv : (sx + c) / 16 = sx / 16 + c / 16)
    by (symmetry; apply Z.div_unique with (c mod 16); clear - Dsx Dc Mc Hal; lia).
  assert (Emod : (sx + c) mod 16 = c mod 16)
    by (symmetry; apply Z.mod_unique with (sx / 16 + c / 16); clear - Dsx Dc Mc Hal; lia).
  pose proof (Z.div_mod y 16 ltac:(lia)) as Dy.
  pose proof (Z.mod_pos_bound y 16 ltac:(lia)) as My.
  rewrite Ediv, Emod.
  rewrite shifted_index by lia.
  pose proof (tile_index_range 4 (c mod 16) (y mod 16) (or_intror eq_refl)) as Hi.
  change (2 ^ 4) with 16 in Hi. specialize (Hi Mc My).
  unfold u16. rewrite (Z.mod_small (16 * (y / 16))) by (change (2 ^ 16) with 65536; lia).
  rewrite (u32_small (16 * (y / 16))) by (change (2 ^ 32) with 4294967296; lia).
  rewrite (u32_small ((sx / 16 + c / 16) * (16 * 16)))
    by (change (2 ^ 32) with 4294967296; lia).
  rewrite (u32_small ((sx / 16 + c / 16) * (16 * 16) + tile_index (c mod 16) (y mod 16)))
    by (change (2 ^ 32) with 4294967296; lia).
  ring.
Qed.

Lemma aligned_ops_unaligned (shift dst src sx sy w h ds ss : Z) :
  0 <= shift <= 4 ->
  0 <= sx < 2 ^ 16 -> 0 <= sy < 2 ^ 16 -> 0 <= w < 2 ^ 16 -> 0 <= h < 2 ^ 16 ->
  sx mod 16 = 0 -> w mod 16 = 0 -> sy + h <= 2 ^ 16 ->
  aligned_ops shift dst src sx sy w h ds ss =
  unaligned_ops (2 ^ shift) 4 dst src sx sy w h ds ss.
Proof.
  intros Hs Hsx Hsy Hw Hh Ax Aw Hrows.
  unfold aligned_ops, unaligned_ops.
  rewrite !u16_small by assumption.
  rewrite !s32_small by (change (2 ^ 16) with 65536 in *; change (2 ^ 31) with 2147483648; lia).
  replace (16 * ((w + 15) / 16)) with w
    by (pose proof (Z.div_mod w 16 ltac:(lia));
        assert ((w + 15) / 16 = w / 16)
          by (symmetry; apply Z.div_unique with 15; lia); lia).
  rewrite !flat_map_concat_map. f_equal.
  apply map_ext_in. intros r Hr. apply in_seqZ in Hr.
  apply map_ext_in. intros c Hc. apply in_seqZ in Hc.
  rewrite Z.shiftl_1_l. unfold unaligned_source.
  f_equal; [|lia].
  apply aligned_dest_unaligned; try assumption; lia.
Qed.
(** ** Dispatch on the element size *)

Lemma elem_of_bpp_cases (bpp elem : Z) :
  elem_of_bpp bpp = Some elem ->
  (bpp = 8 /\ elem = 1) \/ (bpp = 16 /\ elem = 2) \/ (bpp = 32 /\ elem = 4) \/
  (bpp = 64 /\ elem = 8) \/ (bpp = 128 /\ elem = 16).
Proof.
  unfold elem_of_bpp.
  repeat (match goal with |- context [?a =? ?b] => destruct (Z.eqb_spec a b) end);
    intros H; inversion H; lia.
Qed.

Lemma elem_of_bpp_shift (shift : Z) :
  0 <= shift <= 4 -> elem_of_bpp (8 * 2 ^ shift) = Some (2 ^ shift).
Proof.
  intros H.
  assert (C : shift = 0 \/ shift = 1 \/ shift = 2 \/ shift = 3 \/ shift = 4) by lia.
  destruct C as [-> | [-> | [-> | [-> | ->]]]]; reflexivity.
Qed.

Lemma unaligned_types (s : bool) (t bpp elem : Z) (b : bufs)
    (dst src sx sy w h ds ss : Z) :
  elem_of_bpp bpp = Some elem ->
  TILED_UNALIGNED_TYPES s t bpp b dst src sx sy w h ds ss =
  TILED_UNALIGNED_TYPE elem s t b dst src sx sy w h ds ss.
Proof.
  intros H. apply elem_of_bpp_cases in H.
  destruct H as [[-> ->] | [[-> ->] | [[-> ->] | [[-> ->] | [-> ->]]]]]; reflexivity.
Qed.

Lemma unaligned_types_none (s : bool) (t bpp : Z) (b : bufs)
    (dst src sx sy w h ds ss : Z) :
  elem_of_bpp bpp = None ->
  TILED_UNALIGNED_TYPES s t bpp b dst src sx sy w h ds ss = b.
Proof.
  unfold elem_of_bpp, TILED_UNALIGNED_TYPES.
  repeat (match goal with |- context [?a =? ?b] => destruct (Z.eqb_spec a b) end);
    intros H; try discriminate H; reflexivity.
Qed.

Lemma generic_uncompressed (desc : util_format_description) (elem : Z) (s : bool)
    (b : bufs) (dst src sx sy w h ds ss : Z) :
  width (block desc) <= 1 ->
  elem_of_bpp (bits (block desc)) = Some elem ->
  panfrost_access_tiled_image_generic b dst src sx sy w h ds ss desc s =
  TILED_UNALIGNED_TYPE elem s 4 b dst src sx sy w h ds ss.
Proof.
  intros Hw He. unfold panfrost_access_tiled_image_generic. cbv zeta.
  destruct (Z.ltb_spec 1 (width (block desc))); [lia|].
  destruct s; apply unaligned_types, He.
Qed.

Lemma generic_compressed (desc : util_format_description) (elem : Z) (s : bool)
    (b : bufs) (dst src sx sy w h ds ss : Z) :
  1 < width (block desc) ->
  elem_of_bpp (bits (block desc)) = Some elem ->
  panfrost_access_tiled_image_generic b dst src sx sy w h ds ss desc s =
  TILED_UNALIGNED_TYPE elem s 2 b dst src sx sy
    (DIV_ROUND_UP w (width (block desc))) (DIV_ROUND_UP h (height (block desc))) ds ss.
Proof.
  intros Hw He. unfold panfrost_access_tiled_image_generic. cbv zeta.
  destruct (Z.ltb_spec 1 (width (block desc))); [|lia].
  destruct s; apply unaligned_types, He.
Qed.

Lemma generic_unsupported (desc : util_format_description) (s : bool)
    (b : bufs) (dst src sx sy w h ds ss : Z) :
  elem_of_bpp (bits (block desc)) = None ->
  panfrost_access_tiled_image_generic b dst src sx sy w h ds ss desc s = b.
Proof.
  intros He. unfold panfrost_access_tiled_image_generic. cbv zeta.
  destruct (1 <? width (block desc)); destruct s; apply unaligned_types_none, He.
Qed.

Lemma store_interior_aligned (shift : Z) (b : bufs)
    (dst src ox oy x y w h ds ss : Z) :
  0 <= shift <= 4 ->
  store_interior b dst src ox oy x y w h ds ss (8 * 2 ^ shift) =
  TILED_STORE_TYPE shift b dst (OFFSET ox oy ss (8 * 2 ^ shift) src x y) x y w h ds ss.
Proof.
  intros H.
  assert (C : shift = 0 \/ shift = 1 \/ shift = 2 \/ shift = 3 \/ shift = 4) by lia.
  destruct C as [-> | [-> | [-> | [-> | ->]]]]; reflexivity.
Qed.

Lemma store_interior_unsupported (b : bufs) (dst src ox oy x y w h ds ss bpp : Z) :
  elem_of_bpp bpp = None ->
  store_interior b dst src ox oy x y w h ds ss bpp = b.
Proof.
  unfold elem_of_bpp, store_interior. cbv zeta.
  repeat (match goal with |- context [?a =? ?b] => destruct (Z.eqb_spec a b) end);
    intros H; try discriminate H; reflexivity.
Qed.

Lemma elem_shift (bpp elem : Z) :
  elem_of_bpp bpp = Some elem ->
  exists shift, 0 <= shift <= 4 /\ elem = 2 ^ shift /\ bpp = 8 * 2 ^ shift.
Proof.
  intros H. apply elem_of_bpp_cases in H.
  destruct H as [[-> ->] | [[-> ->] | [[-> ->] | [[-> ->] | [-> ->]]]]];
    [exists 0 | exists 1 | exists 2 | exists 3 | exists 4]; repeat split; lia.
Qed.

(** C2 (as amended). For a rectangle whose [sx] and [w] are multiples of 16
    and whose rows all lie below 65536, the aligned store routine of an
    element size and the generic routine in store direction perform the
    same assignments, in the same order, hence leave the same buffers. *)
Theorem aligned_store_matches_generic (shift : Z) (desc : util_format_description)
    (b : bufs) (dst src sx sy w h ds ss : Z) :
  0 <= shift <= 4 ->
  bits (block desc) = 8 * 2 ^ shift -> width (block desc) <= 1 ->
  0 <= sx < 2 ^ 16 -> 0 <= sy < 2 ^ 16 -> 0 <= w < 2 ^ 16 -> 0 <= h < 2 ^ 16 ->
  sx mod 16 = 0 -> w mod 16 = 0 ->
  sy + h <= 2 ^ 16 ->
  TILED_STORE_TYPE shift b dst src sx sy w h ds ss =
    run_ops (2 ^ shift) true (unaligned_ops (2 ^ shift) 4 dst src sx sy w h ds ss) b /\
  panfrost_access_tiled_image_generic b dst src sx sy w h ds ss desc true =
    run_ops (2 ^ shift) true (unaligned_ops (2 ^ shift) 4 dst src sx sy w h ds ss) b /\
  TILED_STORE_TYPE shift b dst src sx sy w h ds ss =
    panfrost_access_tiled_image_generic b dst src sx sy w h ds ss desc true.
Proof.
  intros Hs Hbits Hwd Hsx Hsy Hw Hh Ax Aw Hrows.
  assert (E1 : TILED_STORE_TYPE shift b dst src sx sy w h ds ss =
    run_ops (2 ^ shift) true (unaligned_ops (2 ^ shift) 4 dst src sx sy w h ds ss) b).
  { rewrite aligned_run by lia. rewrite Z.shiftl_1_l.
    rewrite aligned_ops_unaligned by assumption. reflexivity. }
  assert (E2 : panfrost_access_tiled_image_generic b dst src sx sy w h ds ss desc true =
    run_ops (2 ^ shift) true (unaligned_ops (2 ^ shift) 4 dst src sx sy w h ds ss) b).
  { rewrite (generic_uncompressed desc (2 ^ shift)); [apply unaligned_run | exact Hwd |].
    rewrite Hbits. apply elem_of_bpp_shift, Hs. }
  repeat split; [exact E1 | exact E2 | congruence].
Qed.

Lemma aligned_store_matches_generic_witness :
  TILED_STORE_TYPE 2 (mem_zero, mem_ramp) 0 0 32 16 48 64 256 256 =
  panfrost_access_tiled_image_generic (mem_zero, mem_ramp) 0 0 32 16 48 64 256 256
    desc_rgba8 true.
Proof.
  apply (aligned_store_matches_generic 2 desc_rgba8 (mem_zero, mem_ramp)
           0 0 32 16 48 64 256 256);
    simpl; try reflexivity; lia.
Defined.

(** The claim C2 as stated fails once a row of the rectangle reaches 65536:
    the aligned routine keeps the tile row in a [uint16_t]. *)
Lemma aligned_store_differs_counterexample :
  0 mod 16 = 0 /\ 65520 mod 16 = 0 /\ 16 mod 16 = 0 /\ 32 mod 16 = 0 /\
  fst (TILED_STORE_TYPE 2 (mem_zero, mem_ramp) 0 0 0 65520 16 32 64 64) 4194308 <>
  fst (panfrost_access_tiled_image_generic (mem_zero, mem_ramp) 0 0 0 65520 16 32 64 64
         desc_rgba8 true) 4194308.
Proof. repeat split. vm_compute. discriminate. Qed.
(** ** The offset of an element from the base of its tile *)

Lemma unaligned_dest_tile (elem dst ds tx ty lx ly : Z) :
  0 <= tx < 2 ^ 24 -> 0 <= ty < 2 ^ 27 -> 0 <= lx < 16 -> 0 <= ly < 16 ->
  unaligned_dest elem 4 dst ds (16 * tx + lx) (16 * ty + ly) =
  dst + u32 (16 * ty * ds) + elem * (256 * tx) + tile_index lx ly * elem.
Proof.
  intros Htx Hty Hlx Hly.
  rewrite unaligned_dest_div_mod by lia. change (2 ^ 4) with 16.
  replace ((16 * tx + lx) / 16) with tx by (apply Z.div_unique with lx; lia).
  replace ((16 * tx + lx) mod 16) with lx by (apply Z.mod_unique with tx; lia).
  replace ((16 * ty + ly) / 16) with ty by (apply Z.div_unique with ly; lia).
  replace ((16 * ty + ly) mod 16) with ly by (apply Z.mod_unique with ty; lia).
  pose proof (proj1 (tile_index_coords lx ly Hlx Hly)) as Hi.
  change (2 ^ 24) with 16777216 in Htx. change (2 ^ 27) with 134217728 in Hty.
  rewrite (u32_small (16 * ty)) by (change (2 ^ 32) with 4294967296; lia).
  rewrite (u32_small (tx * (16 * 16))) by (change (2 ^ 32) with 4294967296; lia).
  rewrite (u32_small (tx * (16 * 16) + tile_index lx ly))
    by (change (2 ^ 32) with 4294967296; lia).
  ring.
Qed.

Lemma generic_one_pixel (desc : util_format_description) (elem : Z) (s : bool)
    (b : bufs) (dst src x y ds ss : Z) :
  width (block desc) <= 1 ->
  elem_of_bpp (bits (block desc)) = Some elem ->
  0 <= x < 2 ^ 31 -> 0 <= y < 2 ^ 31 ->
  panfrost_access_tiled_image_generic b dst src x y 1 1 ds ss desc s =
  assign_pixel elem s b (unaligned_dest elem 4 dst ds x y) src.
Proof.
  intros Hw He Hx Hy.
  rewrite (generic_uncompressed desc elem) by assumption.
  rewrite unaligned_run. unfold unaligned_ops, unaligned_source.
  change (seqZ (Z.to_nat 1)) with [0]. cbn [flat_map map app run_ops fold_left fst snd].
  rewrite !s32_small by assumption.
  rewrite Z.mul_0_l, Z.mul_0_r. change (u32 0) with 0.
  rewrite !Z.add_0_r. reflexivity.
Qed.

(** C4. The element at local coordinates ([lx], [ly]) of a tile lies
    [(bit_duplication[ly] ^ space_4[lx]) * elem] bytes from the base of the
    tile: in the generic routine in either direction, and in the aligned
    store routines; for 4-byte elements the pixel at (3, 2) is at byte 36. *)
Theorem tile_offset_formula (shift lx ly : Z) :
  0 <= shift <= 4 -> 0 <= lx < 16 -> 0 <= ly < 16 ->
  (forall (desc : util_format_description) (is_store : bool) (b : bufs)
          (dst src tx ty ds ss : Z),
      bits (block desc) = 8 * 2 ^ shift -> width (block desc) <= 1 ->
      0 <= tx < 2 ^ 24 -> 0 <= ty < 2 ^ 27 ->
      panfrost_access_tiled_image_generic b dst src (16 * tx + lx) (16 * ty + ly) 1 1
        ds ss desc is_store =
      assign_pixel (2 ^ shift) is_store b
        (dst + u32 (16 * ty * ds) + 2 ^ shift * (256 * tx)
         + Z.lxor (bit_duplication ly) (space_4 lx) * 2 ^ shift)
        src) /\
  (forall (dst tx ty ds : Z),
      0 <= tx < 2 ^ 12 -> 0 <= ty < 2 ^ 12 ->
      aligned_dest shift dst ds (16 * tx) (16 * ty + ly) lx =
      dst + u32 (16 * ty * ds) + 2 ^ shift * (256 * tx)
      + Z.lxor (bit_duplication ly) (space_4 lx) * 2 ^ shift) /\
  (forall (b : bufs) (dst src tx ty ds ss : Z),
      0 <= tx < 2 ^ 12 -> 0 <= ty < 2 ^ 12 ->
      TILED_STORE_TYPE shift b dst src (16 * tx) (16 * ty + ly) 16 1 ds ss =
      run_ops (2 ^ shift) true
        (map (fun c => (dst + u32 (16 * ty * ds) + 2 ^ shift * (256 * tx)
                        + Z.lxor (bit_duplication ly) (space_4 c) * 2 ^ shift,
                        src + c * 2 ^ shift))
             (seqZ 16)) b) /\
  Z.lxor (bit_duplication 2) (space_4 3) * 4 = 36.
Proof.
  intros Hs Hlx Hly. split; [|split; [|split]].
  - intros desc is_store b dst src tx ty ds ss Hbits Hwd Htx Hty.
    change (2 ^ 24) with 16777216 in Htx. change (2 ^ 27) with 134217728 in Hty.
    rewrite (generic_one_pixel desc (2 ^ shift));
      [| exact Hwd | rewrite Hbits; apply elem_of_bpp_shift, Hs
       | change (2 ^ 31) with 2147483648; lia | change (2 ^ 31) with 2147483648; lia ].
    rewrite unaligned_dest_tile
      by (try assumption; change (2 ^ 24) with 16777216; change (2 ^ 27) with 134217728; lia).
    reflexivity.
  - intros dst tx ty ds Htx Hty. change (2 ^ 12) with 4096 in Htx, Hty.
    rewrite aligned_dest_unaligned;
      [| exact Hs | change (2 ^ 16) with 65536; lia
       | rewrite Z.mul_comm; apply Z.mod_mul; lia
       | change (2 ^ 16) with 65536; lia | change (2 ^ 16) with 65536; lia ].
    rewrite unaligned_dest_tile
      by (try assumption; change (2 ^ 24) with 16777216; change (2 ^ 27) with 134217728; lia).
    reflexivity.
  - intros b dst src tx ty ds ss Htx Hty. change (2 ^ 12) with 4096 in Htx, Hty.
    rewrite aligned_run by lia. rewrite Z.shiftl_1_l. f_equal.
    unfold aligned_ops.
    rewrite !u16_small by (change (2 ^ 16) with 65536; lia).
    change (seqZ (Z.to_nat 1)) with [0]. cbn [flat_map]. rewrite app_nil_r.
    change (Z.to_nat (16 * ((16 + 15) / 16))) with 16%nat.
    apply map_ext_in. intros c Hc. apply in_seqZ in Hc.
    rewrite Z.add_0_r, Z.mul_0_l. change (u32 0) with 0. rewrite Z.add_0_r.
    rewrite Z.shiftl_1_l. f_equal.
    rewrite aligned_dest_unaligned;
      [| exact Hs | change (2 ^ 16) with 65536; lia
       | rewrite Z.mul_comm; apply Z.mod_mul; lia
       | change (2 ^ 16) with 65536; lia | change (2 ^ 16) with 65536; lia ].
    rewrite unaligned_dest_tile
      by (try assumption; change (2 ^ 24) with 16777216; change (2 ^ 27) with 134217728; lia).
    reflexivity.
  - reflexivity.
Qed.

Lemma tile_offset_formula_witness :
  panfrost_access_tiled_image_generic (mem_zero, mem_ramp) 0 0 3 2 1 1 64 64 desc_rgba8 true =
  assign_pixel 4 true (mem_zero, mem_ramp) 36 0.
Proof.
  exact (proj1 (tile_offset_formula 2 3 2 ltac:(lia) ltac:(lia) ltac:(lia))
           desc_rgba8 true (mem_zero, mem_ramp) 0 0 0 0 64 64
           eq_refl ltac:(simpl; lia) ltac:(lia) ltac:(lia)).
Defined.

(** ** Load *)

(** C6. [panfrost_load_tiled_image] is one call of the generic routine over
    the whole rectangle, with the buffers, the pointers and the strides
    exchanged and the direction set to load: for a supported element size
    it is the row-major sequence of load assignments of the rectangle, with
    no split and no aligned routine. *)
Theorem load_is_one_generic_call (desc : util_format_description) (b : bufs)
    (dst src x y w h dst_stride src_stride : Z) :
  panfrost_load_tiled_image b dst src x y w h dst_stride src_stride desc =
    (snd (panfrost_access_tiled_image_generic (snd b, fst b) src dst x y w h
            src_stride dst_stride desc false),
     fst (panfrost_access_tiled_image_generic (snd b, fst b) src dst x y w h
            src_stride dst_stride desc false)) /\
  (forall elem, elem_of_bpp (bits (block desc)) = Some elem ->
     width (block desc) <= 1 ->
     panfrost_access_tiled_image_generic (snd b, fst b) src dst x y w h
       src_stride dst_stride desc false =
     run_ops elem false (unaligned_ops elem 4 src dst x y w h src_stride dst_stride)
       (snd b, fst b)) /\
  (forall elem, elem_of_bpp (bits (block desc)) = Some elem ->
     1 < width (block desc) ->
     panfrost_access_tiled_image_generic (snd b, fst b) src dst x y w h
       src_stride dst_stride desc false =
     run_ops elem false
       (unaligned_ops elem 2 src dst x y
          (DIV_ROUND_UP w (width (block desc))) (DIV_ROUND_UP h (height (block desc)))
          src_stride dst_stride)
       (snd b, fst b)).
Proof.
  split; [reflexivity|]. split; intros elem He Hw.
  - rewrite (generic_uncompressed desc elem) by assumption. apply unaligned_run.
  - rewrite (generic_compressed desc elem) by assumption. apply unaligned_run.
Qed.

Lemma load_is_one_generic_call_witness :
  panfrost_access_tiled_image_generic (mem_ramp, mem_zero) 0 0 3 5 20 30 256 80
    desc_rgba8 false =
  run_ops 4 false (unaligned_ops 4 4 0 0 3 5 20 30 256 80) (mem_ramp, mem_zero).
Proof.
  exact (proj1 (proj2 (load_is_one_generic_call desc_rgba8 (mem_zero, mem_ramp)
                         0 0 3 5 20 30 80 256))
           4 eq_refl ltac:(simpl; lia)).
Defined.

(** ** Block-compressed formats *)

Lemma DIV_ROUND_UP_ceil (a b : Z) :
  0 < a -> 0 < b -> a + b <= 2 ^ 32 ->
  b * (DIV_ROUND_UP a b - 1) < a <= b * DIV_ROUND_UP a b.
Proof.
  intros Ha Hb Hab. unfold DIV_ROUND_UP.
  rewrite u32_small by lia.
  pose proof (Z.div_mod (a + b - 1) b ltac:(lia)).
  pose proof (Z.mod_pos_bound (a + b - 1) b Hb).
  nia.
Qed.

(** C7. For a block-compressed format, [panfrost_store_tiled_image] is the
    generic routine on the whole rectangle: [w] and [h] are divided, rounding
    up, by the block width and height, and every block is copied as one
    element of its size, addressed in tiles of 4 by 4 blocks; no split is made
    and no aligned routine is called. *)
Theorem compressed_store_is_generic (desc : util_format_description) (b : bufs)
    (dst src x y w h dst_stride src_stride : Z) :
  1 < width (block desc) ->
  panfrost_store_tiled_image b dst src x y w h dst_stride src_stride desc =
    panfrost_access_tiled_image_generic b dst src x y w h dst_stride src_stride desc true /\
  (forall elem, elem_of_bpp (bits (block desc)) = Some elem ->
     panfrost_store_tiled_image b dst src x y w h dst_stride src_stride desc =
     run_ops elem true
       (unaligned_ops elem 2 dst src x y
          (DIV_ROUND_UP w (width (block desc))) (DIV_ROUND_UP h (height (block desc)))
          dst_stride src_stride) b) /\
  (0 < w -> w + width (block desc) <= 2 ^ 32 ->
     width (block desc) * (DIV_ROUND_UP w (width (block desc)) - 1) < w
       <= width (block desc) * DIV_ROUND_UP w (width (block desc))) /\
  (0 < h -> 0 < height (block desc) -> h + height (block desc) <= 2 ^ 32 ->
     height (block desc) * (DIV_ROUND_UP h (height (block desc)) - 1) < h
       <= height (block desc) * DIV_ROUND_UP h (height (block desc))).
Proof.
  intros Hw.
  assert (E : panfrost_store_tiled_image b dst src x y w h dst_stride src_stride desc =
    panfrost_access_tiled_image_generic b dst src x y w h dst_stride src_stride desc true).
  { unfold panfrost_store_tiled_image.
    destruct (Z.ltb_spec 1 (width (block desc))); [reflexivity | lia]. }
  split; [exact E|]. split; [|split].
  - intros elem He. rewrite E, (generic_compressed desc elem) by assumption.
    apply unaligned_run.
  - intros H0 H1. apply DIV_ROUND_UP_ceil; lia.
  - intros H0 H1 H2. apply DIV_ROUND_UP_ceil; lia.
Qed.

Lemma compressed_store_is_generic_witness :
  panfrost_store_tiled_image (mem_zero, mem_ramp) 0 0 4 8 10 7 64 32 desc_bc1 =
  panfrost_access_tiled_image_generic (mem_zero, mem_ramp) 0 0 4 8 10 7 64 32 desc_bc1 true.
Proof.
  exact (proj1 (compressed_store_is_generic desc_bc1 (mem_zero, mem_ramp)
                  0 0 4 8 10 7 64 32 ltac:(simpl; lia))).
Defined.
(** ** Tile boundaries *)

Lemma first_full_aligned (x : Z) :
  0 <= x < 2 ^ 32 ->
  (u32 (DIV_ROUND_UP x 16 * 16) =? x) = (x mod 16 =? 0).
Proof.
  intros Hx. unfold DIV_ROUND_UP, u32. change (2 ^ 32) with 4294967296 in *.
  destruct (Z.eqb_spec (x mod 16) 0) as [E | E];
  [apply Z.eqb_eq | apply Z.eqb_neq]; Z.div_mod_to_equations; lia.
Qed.

Lemma first_full_dist (x : Z) :
  0 <= x < 2 ^ 32 -> x mod 16 <> 0 ->
  u32 (u32 (DIV_ROUND_UP x 16 * 16) - x) = 16 - x mod 16.
Proof.
  intros Hx E. unfold DIV_ROUND_UP, u32. change (2 ^ 32) with 4294967296 in *.
  Z.div_mod_to_equations; lia.
Qed.

Lemma last_full_floor (s : Z) :
  0 <= s < 2 ^ 32 -> u32 (u32 s / 16 * 16) = s - s mod 16.
Proof.
  intros Hs. unfold u32. change (2 ^ 32) with 4294967296 in *.
  Z.div_mod_to_equations; lia.
Qed.
(** ** The split of the rectangle, in closed form *)

Lemma MIN2_min (a b : Z) : MIN2 a b = Z.min a b.
Proof. unfold MIN2. destruct (Z.ltb_spec a b); lia. Qed.

Lemma plan_right_spec (lfx x y w h : Z) :
  0 <= x -> 0 <= w -> x + w < 2 ^ 32 -> x mod 16 = 0 ->
  lfx = x + w - (x + w) mod 16 ->
  plan_right lfx x y w h = right_spec x y w h.
Proof.
  intros Hx Hw Hxw Ax ->. unfold plan_right, right_spec. cbv zeta.
  rewrite (u32_small (x + w)) by lia.
  pose proof (Z.mod_pos_bound (x + w) 16 ltac:(lia)) as M.
  assert (Hd : (x + w) mod 16 <= w).
  { pose proof (Z.div_mod x 16 ltac:(lia)). pose proof (Z.div_mod (x + w) 16 ltac:(lia)).
    pose proof (Z.div_mod w 16 ltac:(lia)). pose proof (Z.mod_pos_bound w 16 ltac:(lia)).
    assert ((x + w) mod 16 = w mod 16)
      by (symmetry; apply Z.mod_unique with (x / 16 + w / 16); lia).
    lia. }
  replace (x + w - (x + w - (x + w) mod 16)) with ((x + w) mod 16) by lia.
  rewrite (u32_small ((x + w) mod 16)) by (change (2 ^ 32) with 4294967296; lia).
  rewrite (u32_small (w - (x + w) mod 16)) by lia.
  destruct (Z.eqb_spec ((x + w) mod 16) 0) as [E | E];
  destruct (Z.eqb_spec (x + w - (x + w) mod 16) (x + w)); try lia; reflexivity.
Qed.

Lemma plan_left_spec (lfx x y w h : Z) :
  0 <= x -> 0 <= w -> x + w < 2 ^ 32 ->
  lfx = x + w - (x + w) mod 16 ->
  plan_left (u32 (DIV_ROUND_UP x 16 * 16)) lfx x y w h = left_spec x y w h.
Proof.
  intros Hx Hw Hxw Hl. unfold plan_left, left_spec. cbv zeta.
  rewrite first_full_aligned by lia.
  destruct (Z.eqb_spec (x mod 16) 0) as [E | E]; cbn [negb].
  - apply plan_right_spec; assumption.
  - rewrite first_full_dist by (try assumption; lia). rewrite MIN2_min.
    pose proof (Z.mod_pos_bound x 16 ltac:(lia)) as M.
    f_equal.
    destruct (Z.eqb_spec (Z.min (16 - x mod 16) w) w) as [D | D]; [reflexivity|].
    assert (Hm : Z.min (16 - x mod 16) w = 16 - x mod 16) by lia.
    rewrite Hm, (u32_small (x + (16 - x mod 16))), (u32_small (w - (16 - x mod 16))) by lia.
    apply plan_right_spec; try lia.
    + pose proof (Z.div_mod x 16 ltac:(lia)).
      symmetry; apply Z.mod_unique with (x / 16 + 1); lia.
    + rewrite Hl. replace (x + (16 - x mod 16) + (w - (16 - x mod 16))) with (x + w) by lia.
      reflexivity.
Qed.

Lemma plan_bottom_spec (lfx lfy x y w h : Z) :
  0 <= x -> 0 <= w -> x + w < 2 ^ 32 ->
  0 <= y -> 0 <= h -> y + h < 2 ^ 32 -> y mod 16 = 0 ->
  lfx = x + w - (x + w) mod 16 ->
  lfy = y + h - (y + h) mod 16 ->
  plan_bottom (u32 (DIV_ROUND_UP x 16 * 16)) lfx lfy x y w h = bottom_spec x y w h.
Proof.
  intros Hx Hw Hxw Hy Hh Hyh Ay Hlx ->. unfold plan_bottom, bottom_spec. cbv zeta.
  rewrite (u32_small (y + h)) by lia.
  pose proof (Z.mod_pos_bound (y + h) 16 ltac:(lia)) as M.
  assert (Hd : (y + h) mod 16 <= h).
  { pose proof (Z.div_mod y 16 ltac:(lia)). pose proof (Z.div_mod (y + h) 16 ltac:(lia)).
    pose proof (Z.div_mod h 16 ltac:(lia)). pose proof (Z.mod_pos_bound h 16 ltac:(lia)).
    assert ((y + h) mod 16 = h mod 16)
      by (symmetry; apply Z.mod_unique with (y / 16 + h / 16); lia).
    lia. }
  replace (y + h - (y + h - (y + h) mod 16)) with ((y + h) mod 16) by lia.
  rewrite (u32_small ((y + h) mod 16)) by (change (2 ^ 32) with 4294967296; lia).
  rewrite (u32_small (h - (y + h) mod 16)) by lia.
  destruct (Z.eqb_spec ((y + h) mod 16) 0) as [E | E];
  destruct (Z.eqb_spec (y + h - (y + h) mod 16) (y + h)); try lia; cbn [negb].
  - apply plan_left_spec; assumption.
  - f_equal. apply plan_left_spec; assumption.
Qed.

Lemma store_plan_spec (x y w h : Z) :
  0 <= x -> 0 <= w -> x + w < 2 ^ 32 ->
  0 <= y -> 0 <= h -> y + h < 2 ^ 32 ->
  store_plan x y w h = top_spec x y w h.
Proof.
  intros Hx Hw Hxw Hy Hh Hyh.
  unfold store_plan, plan_top, top_spec, TILE_WIDTH, TILE_HEIGHT. cbv zeta.
  rewrite !last_full_floor by lia.
  rewrite first_full_aligned by lia.
  destruct (Z.eqb_spec (y mod 16) 0) as [E | E]; cbn [negb].
  - apply plan_bottom_spec; try assumption; reflexivity.
  - rewrite first_full_dist by (try assumption; lia). rewrite MIN2_min.
    pose proof (Z.mod_pos_bound y 16 ltac:(lia)) as M.
    f_equal.
    destruct (Z.eqb_spec (Z.min (16 - y mod 16) h) h) as [D | D]; [reflexivity|].
    assert (Hm : Z.min (16 - y mod 16) h = 16 - y mod 16) by lia.
    rewrite Hm, (u32_small (y + (16 - y mod 16))), (u32_small (h - (16 - y mod 16))) by lia.
    apply plan_bottom_spec; try lia.
    + pose proof (Z.div_mod y 16 ltac:(lia)).
      symmetry; apply Z.mod_unique with (y / 16 + 1); lia.
    + replace (y + (16 - y mod 16) + (h - (16 - y mod 16))) with (y + h) by lia.
      reflexivity.
Qed.
Ltac spec_cases :=
  unfold top_spec, bottom_spec, left_spec, right_spec; cbv zeta;
  repeat match goal with
  | |- context [if ?a =? ?b then _ else _] => destruct (Z.eqb_spec a b)
  end.

Ltac split_in :=
  cbn [In] in *;
  repeat match goal with
  | G : _ \/ _ |- _ => destruct G as [G | G]
  | G : False |- _ => destruct G
  | G : (_, _) = (?k, ?r) |- _ =>
      let Gk := fresh "Gk" in
      apply pair_equal_spec in G; destruct G as [Gk G];
      first [discriminate Gk | subst r; try subst k; try clear Gk]
  end; cbn [rx ry rw rh fst snd] in *.

Lemma top_spec_inside (x y w h : Z) :
  0 <= x -> 0 <= y -> 0 <= w -> 0 <= h ->
  forall k r, In (k, r) (top_spec x y w h) ->
    0 <= rw r /\ 0 <= rh r /\
    x <= rx r /\ rx r + rw r <= x + w /\ y <= ry r /\ ry r + rh r <= y + h.
Proof.
  intros Hx Hy Hw Hh k r.
  spec_cases; intros Hin; split_in; Z.div_mod_to_equations; lia.
Qed.

Lemma top_spec_interior (x y w h : Z) :
  0 <= x -> 0 <= y -> 0 <= w -> 0 <= h ->
  forall r, In (Interior, r) (top_spec x y w h) ->
    rx r mod 16 = 0 /\ ry r mod 16 = 0 /\ rw r mod 16 = 0 /\ rh r mod 16 = 0.
Proof.
  intros Hx Hy Hw Hh r.
  spec_cases; intros Hin; split_in; Z.div_mod_to_equations; lia.
Qed.

Lemma top_spec_covers (x y w h X Y : Z) :
  0 <= x -> 0 <= y -> 0 <= w -> 0 <= h ->
  x <= X < x + w -> y <= Y < y + h ->
  exists k r, In (k, r) (top_spec x y w h) /\ in_rect r X Y.
Proof.
  intros Hx Hy Hw Hh HX HY. unfold in_rect.
  spec_cases;
  repeat match goal with
  | |- exists k r, In (k, r) ((?k0, ?r0) :: ?l) /\ _ =>
      let C := fresh "C" in
      assert (C : (rx r0 <= X < rx r0 + rw r0 /\ ry r0 <= Y < ry r0 + rh r0) \/
                  ~ (rx r0 <= X < rx r0 + rw r0 /\ ry r0 <= Y < ry r0 + rh r0))
        by (cbn [rx ry rw rh]; lia);
      destruct C as [C | C];
      [ exists k0, r0; split; [left; reflexivity | exact C]
      | cut (exists k r, In (k, r) l /\ rx r <= X < rx r + rw r /\ ry r <= Y < ry r + rh r);
        [ intros (k' & r' & I' & R'); exists k', r'; split; [right; exact I' | exact R']
        | cbn [rx ry rw rh] in C ] ]
  end; exfalso; Z.div_mod_to_equations; lia.
Qed.
Lemma top_spec_disjoint (x y w h : Z) :
  0 <= x -> 0 <= y -> 0 <= w -> 0 <= h ->
  ForallOrdPairs (fun s1 s2 => disjoint_rects (snd s1) (snd s2)) (top_spec x y w h).
Proof.
  intros Hx Hy Hw Hh.
  spec_cases;
  repeat first [ apply FOP_nil | apply FOP_cons | apply Forall_nil | apply Forall_cons ];
  unfold disjoint_rects, in_rect; cbn [rx ry rw rh fst snd]; intros X Y;
  Z.div_mod_to_equations; lia.
Qed.

Lemma top_spec_length (x y w h : Z) : (length (top_spec x y w h) <= 5)%nat.
Proof. spec_cases; cbn [length]; lia. Qed.

(** ** The store as the execution of its plan *)

Lemma store_as_plan (desc : util_format_description) (b : bufs)
    (dst src x y w h ds ss : Z) :
  width (block desc) <= 1 ->
  panfrost_store_tiled_image b dst src x y w h ds ss desc =
  fold_left (run_step desc dst src x y ds ss) (store_plan x y w h) b.
Proof.
  intros Hw. unfold panfrost_store_tiled_image.
  destruct (Z.ltb_spec 1 (width (block desc))); [lia|]. cbv zeta.
  unfold store_plan, store_top, plan_top, store_bottom, plan_bottom,
    store_left, plan_left, store_right, plan_right. cbv zeta.
  repeat match goal with
  | |- context [negb (?a =? ?b)] => destruct (a =? b); cbn [negb]
  | |- context [if ?a =? ?b then _ else _] => destruct (a =? b)
  end; reflexivity.
Qed.

(** C8. For a format that is not block-compressed, the rectangles processed
    by the steps of [panfrost_store_tiled_image] are at most five, pairwise
    disjoint, their union is the rectangle of the call, and the one handed to
    the aligned routine has [x], [y], [w] and [h] multiples of 16. *)
Theorem store_split_partition (x y w h : Z) :
  0 <= x -> 0 <= y -> 0 <= w -> 0 <= h -> x + w < 2 ^ 32 -> y + h < 2 ^ 32 ->
  (forall (desc : util_format_description) (b : bufs) (dst src ds ss : Z),
     width (block desc) <= 1 ->
     panfrost_store_tiled_image b dst src x y w h ds ss desc =
     fold_left (run_step desc dst src x y ds ss) (store_plan x y w h) b) /\
  (length (store_plan x y w h) <= 5)%nat /\
  ForallOrdPairs (fun s1 s2 => disjoint_rects (snd s1) (snd s2)) (store_plan x y w h) /\
  (forall X Y, in_rect (mk_rect x y w h) X Y <->
     exists k r, In (k, r) (store_plan x y w h) /\ in_rect r X Y) /\
  (forall r, In (Interior, r) (store_plan x y w h) ->
     rx r mod 16 = 0 /\ ry r mod 16 = 0 /\ rw r mod 16 = 0 /\ rh r mod 16 = 0).
Proof.
  intros Hx Hy Hw Hh Hxw Hyh.
  split; [intros; apply store_as_plan; assumption|].
  rewrite store_plan_spec by assumption.
  split; [apply top_spec_length|].
  split; [apply top_spec_disjoint; assumption|].
  split; [|apply top_spec_interior; assumption].
  intros X Y. split.
  - intros [HX HY]. cbn [rx ry rw rh] in HX, HY.
    apply top_spec_covers; assumption.
  - intros (k & r & Hin & [HX HY]).
    pose proof (top_spec_inside x y w h Hx Hy Hw Hh k r Hin).
    unfold in_rect. cbn [rx ry rw rh]. lia.
Qed.

Lemma store_split_partition_witness :
  store_plan 3 5 20 30 =
  [ (Top, mk_rect 3 5 20 11); (Bottom, mk_rect 3 32 20 3);
    (Left, mk_rect 3 16 13 16); (Right, mk_rect 16 16 7 16);
    (Interior, mk_rect 16 16 0 16) ] /\
  ForallOrdPairs (fun s1 s2 => disjoint_rects (snd s1) (snd s2)) (store_plan 3 5 20 30).
Proof.
  split; [reflexivity|].
  exact (proj1 (proj2 (proj2 (store_split_partition 3 5 20 30
    ltac:(lia) ltac:(lia) ltac:(lia) ltac:(lia) ltac:(lia) ltac:(lia))))).
Defined.
(** ** The assignments of a run, pixel by pixel *)

Lemma unaligned_ops_in (elem t dst src sx sy w h ds ss : Z) (o : op) :
  In o (unaligned_ops elem t dst src sx sy w h ds ss) <->
  exists c r, 0 <= c < w /\ 0 <= r < h /\
    o = (unaligned_dest elem t dst ds (s32 sx + c) (s32 sy + r),
         unaligned_source elem src ss c r).
Proof.
  unfold unaligned_ops. rewrite in_flat_map. split.
  - intros (r & Hr & Hin). apply in_map_iff in Hin. destruct Hin as (c & <- & Hc).
    apply in_seqZ in Hr, Hc. exists c, r. repeat split; try lia.
  - intros (c & r & Hc & Hr & ->). exists r. split; [apply in_seqZ; lia|].
    apply in_map_iff. exists c. split; [reflexivity | apply in_seqZ; lia].
Qed.

(** The generic routine on the rectangle [x1, y1, w1, h1] with the source
    pointer of its top-left pixel: one assignment per pixel of the rectangle,
    reading the linear image of origin ([x], [y]) at [src]. *)

Lemma unaligned_ops_rect (elem t dst srcp src x y x1 y1 w1 h1 ds ss : Z) (o : op) :
  0 <= x1 -> 0 <= y1 -> x1 + w1 <= 2 ^ 31 -> y1 + h1 <= 2 ^ 31 ->
  y <= y1 -> 0 <= ss -> (y1 - y + h1) * ss <= 2 ^ 32 ->
  srcp = src + (y1 - y) * ss + elem * (x1 - x) ->
  In o (unaligned_ops elem t dst srcp x1 y1 w1 h1 ds ss) <->
  exists X Y, in_rect (mk_rect x1 y1 w1 h1) X Y /\
    o = pixel_op elem t dst src x y ds ss X Y.
Proof.
  intros Hrx Hry Hxw Hyh Hy Hss Hlin ->.
  rewrite unaligned_ops_in. unfold in_rect, pixel_op, unaligned_source.
  cbn [rx ry rw rh].
  assert (Hrow : forall r, 0 <= r < h1 -> u32 (r * ss) = r * ss).
  { intros r Hr. apply u32_small. split; [nia|].
    assert (r * ss <= (y1 - y + h1 - 1) * ss) by nia. nia. }
  split.
  - intros (c & r & Hc & Hr & ->). exists (x1 + c), (y1 + r).
    rewrite !s32_small by lia. rewrite Hrow by lia.
    split; [lia|]. f_equal. ring.
  - intros (X & Y & [HX HY] & ->). exists (X - x1), (Y - y1).
    rewrite !s32_small by lia. rewrite Hrow by lia.
    split; [lia|]. split; [lia|]. f_equal; [f_equal; lia | ring].
Qed.

Lemma OFFSET_plain (x y ss elem src X Y : Z) :
  x <= X -> y <= Y -> 0 <= ss -> 0 <= elem ->
  (Y - y) * ss < 2 ^ 32 -> Y - y < 2 ^ 32 -> (X - x) * elem < 2 ^ 32 -> X - x < 2 ^ 32 ->
  OFFSET x y ss (8 * elem) src X Y = src + (Y - y) * ss + elem * (X - x).
Proof.
  intros HX HY Hss He H1 H2 H3 H4. unfold OFFSET.
  replace (8 * elem / 8) with elem by (rewrite Z.mul_comm, Z.div_mul; lia).
  rewrite (u32_small (Y - y)), (u32_small (X - x)) by lia.
  rewrite !u32_small by nia. ring.
Qed.
(** ** The assignments of the split store *)

Lemma run_step_ops (shift : Z) (desc : util_format_description) (b : bufs)
    (dst src x y ds ss : Z) (s : step_kind * rect) :
  0 <= shift <= 4 -> bits (block desc) = 8 * 2 ^ shift -> width (block desc) <= 1 ->
  run_step desc dst src x y ds ss b s =
  run_ops (2 ^ shift) true (step_ops shift dst src x y ds ss s) b.
Proof.
  intros Hs Hbits Hw. destruct s as [k r]. unfold run_step, step_ops. cbn [fst snd].
  assert (He : elem_of_bpp (bits (block desc)) = Some (2 ^ shift))
    by (rewrite Hbits; apply elem_of_bpp_shift, Hs).
  rewrite Hbits.
  destruct k;
    try (rewrite (generic_uncompressed desc (2 ^ shift)) by assumption;
         apply unaligned_run).
  rewrite store_interior_aligned, aligned_run by lia. rewrite Z.shiftl_1_l. reflexivity.
Qed.

Lemma store_run_ops (shift : Z) (desc : util_format_description) (b : bufs)
    (dst src x y w h ds ss : Z) :
  0 <= shift <= 4 -> bits (block desc) = 8 * 2 ^ shift -> width (block desc) <= 1 ->
  panfrost_store_tiled_image b dst src x y w h ds ss desc =
  run_ops (2 ^ shift) true (store_ops shift dst src x y w h ds ss) b.
Proof.
  intros Hs Hbits Hw. rewrite store_as_plan by assumption.
  unfold store_ops. rewrite run_ops_flat_map.
  apply fold_left_ext_in. intros b' s _. apply run_step_ops; assumption.
Qed.

Section SplitStore.
Variables (shift dst src x y w h ds ss : Z).
Hypothesis Hshift : 0 <= shift <= 4.
Hypothesis Hx : 0 <= x.
Hypothesis Hy : 0 <= y.
Hypothesis Hw : 0 <= w.
Hypothesis Hh : 0 <= h.
Hypothesis Hxw : x + w < 2 ^ 16.
Hypothesis Hyh : y + h < 2 ^ 16.
Hypothesis Hss : 0 <= ss.
Hypothesis Hlin : h * ss <= 2 ^ 32.

Lemma step_ops_in (k : step_kind) (r : rect) (o : op) :
  In (k, r) (store_plan x y w h) ->
  In o (step_ops shift dst src x y ds ss (k, r)) <->
  exists X Y, in_rect r X Y /\ o = pixel_op (2 ^ shift) 4 dst src x y ds ss X Y.
Proof.
  intros Hin.
  change (2 ^ 16) with 65536 in Hxw, Hyh.
  rewrite store_plan_spec in Hin by (change (2 ^ 32) with 4294967296; lia).
  pose proof (top_spec_inside x y w h Hx Hy Hw Hh k r Hin)
    as (R1 & R2 & R3 & R4 & R5 & R6).
  assert (E : step_ops shift dst src x y ds ss (k, r) =
    unaligned_ops (2 ^ shift) 4 dst
      (OFFSET x y ss (8 * 2 ^ shift) src (rx r) (ry r)) (rx r) (ry r) (rw r) (rh r) ds ss).
  { unfold step_ops. cbn [fst snd]. destruct k; try reflexivity.
    pose proof (top_spec_interior x y w h Hx Hy Hw Hh r Hin) as (A1 & A2 & A3 & A4).
    apply aligned_ops_unaligned; try assumption; change (2 ^ 16) with 65536; lia. }
  rewrite E. clear E.
  destruct (Z_le_gt_dec (rw r) 0) as [Ew | Ew]; [|destruct (Z_le_gt_dec (rh r) 0) as [Eh | Eh]].
  - rewrite unaligned_ops_in. unfold in_rect.
    split; [intros (c & r' & ? & _) | intros (X & Y & [? ?] & _)]; lia.
  - rewrite unaligned_ops_in. unfold in_rect.
    split; [intros (c & r' & _ & ? & _) | intros (X & Y & [? ?] & _)]; lia.
  - assert (P2 : 0 < 2 ^ shift <= 16).
    { split; [apply Z.pow_pos_nonneg; lia|].
      change 16 with (2 ^ 4). apply Z.pow_le_mono_r; lia. }
    assert (Hrow : (ry r - y + rh r) * ss <= 2 ^ 32) by nia.
    assert (Hrow' : (ry r - y) * ss < 2 ^ 32) by nia.
    destruct r as [x1 y1 w1 h1]. cbn [rx ry rw rh] in *.
    apply unaligned_ops_rect; try assumption;
      try (change (2 ^ 31) with 2147483648; lia).
    apply OFFSET_plain; try lia; change (2 ^ 32) with 4294967296; nia.
Qed.

Lemma store_ops_in (o : op) :
  In o (store_ops shift dst src x y w h ds ss) <->
  exists X Y, in_rect (mk_rect x y w h) X Y /\
    o = pixel_op (2 ^ shift) 4 dst src x y ds ss X Y.
Proof.
  unfold store_ops. rewrite in_flat_map.
  change (2 ^ 16) with 65536 in Hxw, Hyh.
  assert (Hspec : store_plan x y w h = top_spec x y w h)
    by (apply store_plan_spec; change (2 ^ 32) with 4294967296; lia).
  split.
  - intros ([k r] & Hin & Ho).
    apply (step_ops_in k r o Hin) in Ho. destruct Ho as (X & Y & [HX HY] & ->).
    rewrite Hspec in Hin.
    pose proof (top_spec_inside x y w h Hx Hy Hw Hh k r Hin).
    exists X, Y. split; [|reflexivity]. unfold in_rect. cbn [rx ry rw rh]. lia.
  - intros (X & Y & [HX HY] & ->). cbn [rx ry rw rh] in HX, HY.
    destruct (top_spec_covers x y w h X Y Hx Hy Hw Hh HX HY) as (k & r & Hin & HR).
    rewrite <- Hspec in Hin.
    exists (k, r). split; [exact Hin|].
    apply (step_ops_in k r _ Hin). exists X, Y. split; [exact HR | reflexivity].
Qed.

Lemma generic_ops_in (o : op) :
  In o (unaligned_ops (2 ^ shift) 4 dst src x y w h ds ss) <->
  exists X Y, in_rect (mk_rect x y w h) X Y /\
    o = pixel_op (2 ^ shift) 4 dst src x y ds ss X Y.
Proof.
  change (2 ^ 16) with 65536 in Hxw, Hyh.
  apply unaligned_ops_rect; try assumption;
    try (change (2 ^ 31) with 2147483648; lia);
    try (replace (y - y + h) with h by lia; exact Hlin);
    try ring.
Qed.
End SplitStore.
(** ** The split store against the generic routine *)

Lemma pixel_ops_consistent (elem t dst src x y w h ds ss : Z) (ops : list op) :
  t = 2 \/ t = 4 -> 0 < elem -> 0 <= x -> 0 <= y ->
  padded elem t x y w h ds ->
  (forall o, In o ops ->
     exists X Y, in_rect (mk_rect x y w h) X Y /\
       o = pixel_op elem t dst src x y ds ss X Y) ->
  consistent elem ops.
Proof.
  intros Ht He Hx Hy Hpad Hops o o' a Ho Ho' C C'.
  destruct (Hops o Ho) as (X & Y & [HX HY] & ->).
  destruct (Hops o' Ho') as (X' & Y' & [HX' HY'] & ->).
  cbn [rx ry rw rh] in *. unfold pixel_op in *. cbn [fst] in C, C'.
  destruct (unaligned_dest_inj elem t x y w h ds Ht He Hx Hy Hpad dst X Y X' Y' a)
    as [-> ->]; try assumption.
  reflexivity.
Qed.

(** C3 (as amended). For a format that is not block-compressed, a rectangle
    whose far edges [x + w] and [y + h] are below 65536 and buffers that hold
    it (destination stride covering the padded width, offsets within 32
    bits), the split store leaves the buffers that one run of the generic
    routine over the whole rectangle leaves. *)
Theorem split_store_matches_generic (shift : Z) (desc : util_format_description)
    (b : bufs) (dst src x y w h ds ss : Z) :
  0 <= shift <= 4 ->
  bits (block desc) = 8 * 2 ^ shift -> width (block desc) <= 1 ->
  0 <= x -> 0 <= y -> 0 <= w -> 0 <= h ->
  x + w < 2 ^ 16 -> y + h < 2 ^ 16 ->
  0 <= ss -> h * ss <= 2 ^ 32 ->
  padded (2 ^ shift) 4 x y w h ds ->
  snd (panfrost_store_tiled_image b dst src x y w h ds ss desc) =
    snd (panfrost_access_tiled_image_generic b dst src x y w h ds ss desc true) /\
  forall a,
    fst (panfrost_store_tiled_image b dst src x y w h ds ss desc) a =
    fst (panfrost_access_tiled_image_generic b dst src x y w h ds ss desc true) a.
Proof.
  intros Hs Hbits Hwd Hx Hy Hw Hh Hxw Hyh Hss Hlin Hpad.
  rewrite (store_run_ops shift) by assumption.
  rewrite (generic_uncompressed desc (2 ^ shift));
    [| exact Hwd | rewrite Hbits; apply elem_of_bpp_shift, Hs].
  rewrite unaligned_run.
  split; [rewrite !run_ops_store_src; reflexivity|].
  intros a. destruct b as [D Sm].
  apply run_ops_store_same.
  - intros o. rewrite store_ops_in, generic_ops_in by assumption. reflexivity.
  - apply (pixel_ops_consistent (2 ^ shift) 4 dst src x y w h ds ss);
      try assumption; [right; reflexivity | apply Z.pow_pos_nonneg; lia |].
    intros o Ho. apply store_ops_in in Ho; assumption.
Qed.

Lemma split_store_matches_generic_witness :
  fst (panfrost_store_tiled_image (mem_zero, mem_ramp) 0 0 3 5 20 30 256 80 desc_rgba8) 4100 =
  fst (panfrost_access_tiled_image_generic (mem_zero, mem_ramp) 0 0 3 5 20 30 256 80
         desc_rgba8 true) 4100.
Proof.
  refine (proj2 (split_store_matches_generic 2 desc_rgba8 (mem_zero, mem_ramp)
                   0 0 3 5 20 30 256 80 _ _ _ _ _ _ _ _ _ _ _ _) 4100);
    try reflexivity; try (simpl; lia).
  unfold padded. simpl. lia.
Defined.

(** The claim C3 as stated fails from row 65536 on: the aligned routine
    receives [y] in a [uint16_t] and stores the interior at tile row 0, while
    the generic routine stores it at tile row 4096.  The buffers hold the
    rectangle: the stride is 16 pixels of 4 bytes.  It also fails when the
    destination does not hold the rectangle: with a stride of 16 one-byte
    pixels and a rectangle 17 pixels wide, the pixels (16, 0) and (0, 16)
    share byte 256, and the two stores write them in opposite orders. *)
Lemma split_store_differs_counterexample :
  (padded 4 4 0 65536 16 16 64 /\
   fst (panfrost_store_tiled_image (mem_zero, mem_ramp) 0 0 0 65536 16 16 64 64
          desc_rgba8) 1 <>
   fst (panfrost_access_tiled_image_generic (mem_zero, mem_ramp) 0 0 0 65536 16 16 64 64
          desc_rgba8 true) 1) /\
  fst (panfrost_store_tiled_image (mem_zero, mem_ramp) 0 0 0 0 17 17 16 32 desc_r8) 256 <>
  fst (panfrost_access_tiled_image_generic (mem_zero, mem_ramp) 0 0 0 0 17 17 16 32
         desc_r8 true) 256.
Proof.
  split; [split; [unfold padded; simpl; lia|]|]; vm_compute; discriminate.
Qed.
(** ** Frames *)

Lemma generic_run_ops (desc : util_format_description) (elem : Z) (s : bool)
    (b : bufs) (dst src sx sy w h ds ss : Z) :
  elem_of_bpp (bits (block desc)) = Some elem ->
  panfrost_access_tiled_image_generic b dst src sx sy w h ds ss desc s =
  run_ops elem s
    (unaligned_ops elem (tile_shift_of desc) dst src sx sy
       (units_w desc w) (units_h desc h) ds ss) b.
Proof.
  intros He. unfold tile_shift_of, units_w, units_h.
  destruct (Z.ltb_spec 1 (width (block desc))).
  - rewrite (generic_compressed desc elem) by assumption. apply unaligned_run.
  - rewrite (generic_uncompressed desc elem) by assumption. apply unaligned_run.
Qed.

Lemma fold_left_id {A B : Type} (f : A -> B -> A) (l : list B) (a : A) :
  (forall a x, f a x = a) -> fold_left f l a = a.
Proof.
  intros H. revert a. induction l as [|x l IH]; intros a; simpl; [reflexivity|].
  rewrite H. apply IH.
Qed.

Lemma store_unsupported (desc : util_format_description) (b : bufs)
    (dst src x y w h ds ss : Z) :
  elem_of_bpp (bits (block desc)) = None ->
  panfrost_store_tiled_image b dst src x y w h ds ss desc = b.
Proof.
  intros He.
  destruct (Z.ltb_spec 1 (width (block desc))) as [Hw | Hw].
  - unfold panfrost_store_tiled_image.
    destruct (Z.ltb_spec 1 (width (block desc))); [|lia].
    apply generic_unsupported, He.
  - rewrite store_as_plan by assumption. apply fold_left_id.
    intros b' [k r]. unfold run_step. cbn [fst snd].
    destruct k; first [apply generic_unsupported, He | apply store_interior_unsupported, He].
Qed.

Lemma store_keeps_source (desc : util_format_description) (b : bufs)
    (dst src x y w h ds ss : Z) :
  snd (panfrost_store_tiled_image b dst src x y w h ds ss desc) = snd b.
Proof.
  destruct (elem_of_bpp (bits (block desc))) as [elem|] eqn:He;
    [|rewrite store_unsupported by assumption; reflexivity].
  destruct (Z.ltb_spec 1 (width (block desc))) as [Hw | Hw].
  - unfold panfrost_store_tiled_image.
    destruct (Z.ltb_spec 1 (width (block desc))); [|lia].
    rewrite (generic_run_ops desc elem) by assumption. apply run_ops_store_src.
  - destruct (elem_shift _ _ He) as (shift & Hs & -> & Hbits).
    rewrite (store_run_ops shift) by assumption. apply run_ops_store_src.
Qed.

Lemma load_keeps_source (desc : util_format_description) (b : bufs)
    (dst src x y w h ds ss : Z) :
  snd (panfrost_load_tiled_image b dst src x y w h ds ss desc) = snd b.
Proof.
  unfold panfrost_load_tiled_image. cbv zeta. cbn [snd].
  destruct (elem_of_bpp (bits (block desc))) as [elem|] eqn:He.
  - rewrite (generic_run_ops desc elem) by assumption. apply run_ops_load_src.
  - rewrite generic_unsupported by assumption. reflexivity.
Qed.

Lemma store_ops_dest (shift dst src x y w h ds ss : Z) (o : op) :
  0 <= shift <= 4 -> 0 <= x -> 0 <= y -> 0 <= w -> 0 <= h ->
  x + w < 2 ^ 16 -> y + h < 2 ^ 16 ->
  In o (store_ops shift dst src x y w h ds ss) ->
  exists c r, 0 <= c < w /\ 0 <= r < h /\
    fst o = unaligned_dest (2 ^ shift) 4 dst ds (x + c) (y + r).
Proof.
  intros Hs Hx Hy Hw Hh Hxw Hyh Hin.
  change (2 ^ 16) with 65536 in Hxw, Hyh.
  unfold store_ops in Hin. apply in_flat_map in Hin. destruct Hin as ([k r] & Hin & Ho).
  rewrite store_plan_spec in Hin by (change (2 ^ 32) with 4294967296; lia).
  pose proof (top_spec_inside x y w h Hx Hy Hw Hh k r Hin)
    as (R1 & R2 & R3 & R4 & R5 & R6).
  assert (E : step_ops shift dst src x y ds ss (k, r) =
    unaligned_ops (2 ^ shift) 4 dst
      (OFFSET x y ss (8 * 2 ^ shift) src (rx r) (ry r)) (rx r) (ry r) (rw r) (rh r) ds ss).
  { unfold step_ops. cbn [fst snd]. destruct k; try reflexivity.
    pose proof (top_spec_interior x y w h Hx Hy Hw Hh r Hin) as (A1 & A2 & A3 & A4).
    apply aligned_ops_unaligned; try assumption; change (2 ^ 16) with 65536; lia. }
  rewrite E in Ho. apply unaligned_ops_in in Ho.
  destruct Ho as (c & r' & Hc & Hr & ->). cbn [fst].
  rewrite !s32_small by (change (2 ^ 31) with 2147483648; lia).
  exists (rx r + c - x), (ry r + r' - y). split; [lia|]. split; [lia|].
  f_equal; lia.
Qed.
(** C9 (as amended). Neither routine modifies its source buffer.  The load
    writes only the bytes of the elements of the rectangle in the linear
    destination.  The store writes only the bytes of the elements of the
    rectangle in the tiled destination: for every block-compressed format,
    and for the other formats when the far edges [x + w] and [y + h] are
    below 65536.  The embedding has no allocator: the routines are functions
    from two buffers to two buffers. *)
Theorem store_load_frame (desc : util_format_description) (b : bufs)
    (dst src x y w h ds ss : Z) :
  snd (panfrost_store_tiled_image b dst src x y w h ds ss desc) = snd b /\
  snd (panfrost_load_tiled_image b dst src x y w h ds ss desc) = snd b /\
  (elem_of_bpp (bits (block desc)) = None ->
     panfrost_store_tiled_image b dst src x y w h ds ss desc = b /\
     panfrost_load_tiled_image b dst src x y w h ds ss desc = b) /\
  (forall elem, elem_of_bpp (bits (block desc)) = Some elem ->
     (forall a,
        (forall c r, 0 <= c < units_w desc w -> 0 <= r < units_h desc h ->
           ~ covers elem (dst + u32 (r * ds) + elem * c) a) ->
        fst (panfrost_load_tiled_image b dst src x y w h ds ss desc) a = fst b a) /\
     (0 <= x < 2 ^ 31 -> 0 <= y < 2 ^ 31 ->
      (width (block desc) <= 1 ->
         0 <= w /\ 0 <= h /\ x + w < 2 ^ 16 /\ y + h < 2 ^ 16) ->
      forall a,
        (forall c r, 0 <= c < units_w desc w -> 0 <= r < units_h desc h ->
           ~ covers elem
               (unaligned_dest elem (tile_shift_of desc) dst ds (x + c) (y + r)) a) ->
        fst (panfrost_store_tiled_image b dst src x y w h ds ss desc) a = fst b a)).
Proof.
  split; [apply store_keeps_source|]. split; [apply load_keeps_source|].
  split.
  { intros He. split; [apply store_unsupported, He|].
    unfold panfrost_load_tiled_image. cbv zeta.
    rewrite generic_unsupported by assumption. destruct b; reflexivity. }
  intros elem He. split.
  - intros a Hfree. unfold panfrost_load_tiled_image. cbv zeta. cbn [fst].
    rewrite (generic_run_ops desc elem) by assumption.
    destruct b as [D Sm]. cbn [fst snd].
    destruct (run_ops_load_cases elem
                (unaligned_ops elem (tile_shift_of desc) src dst x y
                   (units_w desc w) (units_h desc h) ss ds) Sm D a)
      as [(o & Hin & Hc & _) | (_ & Hv)]; [exfalso | exact Hv].
    apply unaligned_ops_in in Hin. destruct Hin as (c & r & Hcr & Hr & ->).
    cbn [snd] in Hc. exact (Hfree c r Hcr Hr Hc).
  - intros Hx Hy H16 a Hfree. destruct b as [D Sm]. cbn [fst].
    destruct (Z.ltb_spec 1 (width (block desc))) as [Hw | Hw].
    + unfold panfrost_store_tiled_image.
      destruct (Z.ltb_spec 1 (width (block desc))); [|lia].
      rewrite (generic_run_ops desc elem) by assumption.
      destruct (run_ops_store_cases elem
                  (unaligned_ops elem (tile_shift_of desc) dst src x y
                     (units_w desc w) (units_h desc h) ds ss) D Sm a)
        as [(o & Hin & Hc & _) | (_ & Hv)]; [exfalso | exact Hv].
      apply unaligned_ops_in in Hin. destruct Hin as (c & r & Hcr & Hr & ->).
      cbn [fst] in Hc. rewrite !s32_small in Hc by assumption.
      exact (Hfree c r Hcr Hr Hc).
    + destruct (H16 Hw) as (Hw0 & Hh0 & Hxw & Hyh).
      destruct (elem_shift _ _ He) as (shift & Hs & -> & Hbits).
      rewrite (store_run_ops shift) by assumption.
      destruct (run_ops_store_cases (2 ^ shift)
                  (store_ops shift dst src x y w h ds ss) D Sm a)
        as [(o & Hin & Hc & _) | (_ & Hv)]; [exfalso | exact Hv].
      apply store_ops_dest in Hin; try assumption; try lia.
      destruct Hin as (c & r & Hcr & Hr & E). rewrite E in Hc.
      unfold units_w, units_h, tile_shift_of in Hfree.
      destruct (Z.ltb_spec 1 (width (block desc))); [lia|].
      exact (Hfree c r Hcr Hr Hc).
Qed.

Lemma store_load_frame_witness :
  fst (panfrost_store_tiled_image (mem_zero, mem_ramp) 0 0 3 5 20 30 256 80 desc_rgba8) (-1)
  = mem_zero (-1).
Proof.
  refine (proj2 (proj2 (proj2 (proj2 (store_load_frame desc_rgba8 (mem_zero, mem_ramp)
            0 0 3 5 20 30 256 80))) 4 eq_refl)
          ltac:(lia) ltac:(lia) ltac:(intros _; lia) (-1) _).
  intros c r Hc Hr. unfold covers, unaligned_dest. cbv zeta.
  match goal with
  | |- ~ (0 + u32 ?p + 4 * u32 ?q <= _ < _) =>
      pose proof (u32_range p); pose proof (u32_range q)
  end.
  lia.
Defined.

(** The claim C9 as stated fails from row 65536 on: the store of the
    rectangle (0, 65536, 16, 16) writes byte 1 of the tiled buffer, which
    belongs to no pixel of the rectangle. *)
Lemma store_frame_counterexample :
  (forall c r, 0 <= c < 16 -> 0 <= r < 16 ->
     ~ covers 4 (unaligned_dest 4 4 0 64 (0 + c) (65536 + r)) 1) /\
  fst (panfrost_store_tiled_image (mem_zero, mem_ramp) 0 0 0 65536 16 16 64 64 desc_rgba8) 1
  <> fst (mem_zero, mem_ramp) 1.
Proof.
  split.
  - intros c r Hc Hr.
    replace (0 + c) with (16 * 0 + c) by lia.
    replace (65536 + r) with (16 * 4096 + r) by lia.
    rewrite unaligned_dest_tile by lia.
    pose proof (proj1 (tile_index_coords c r Hc Hr)).
    change (u32 (16 * 4096 * 64)) with 4194304. unfold covers. lia.
  - vm_compute. discriminate.
Qed.
(** ** Round trip *)

Lemma run_ops_store_value (elem : Z) (ops : list op) (D Sm : mem) (o : op) (a : Z) :
  consistent elem ops -> In o ops -> covers elem (fst o) a ->
  fst (run_ops elem true ops (D, Sm)) a = Sm (snd o + (a - fst o)).
Proof.
  intros Hc Hin Hcov.
  destruct (run_ops_store_cases elem ops D Sm a) as [(o' & I' & C' & V) | (N & _)].
  - rewrite V, (Hc o o' a Hin I' Hcov C'). reflexivity.
  - exfalso. exact (N o Hin Hcov).
Qed.

Lemma whole_ops_in (elem t dst src x y w h ds ss : Z) (o : op) :
  0 <= x -> 0 <= y -> x + w <= 2 ^ 31 -> y + h <= 2 ^ 31 ->
  0 <= ss -> h * ss <= 2 ^ 32 ->
  In o (unaligned_ops elem t dst src x y w h ds ss) <->
  exists X Y, in_rect (mk_rect x y w h) X Y /\
    o = pixel_op elem t dst src x y ds ss X Y.
Proof.
  intros Hx Hy Hxw Hyh Hss Hlin.
  apply unaligned_ops_rect; try assumption; try lia; try ring;
    try (replace (y - y + h) with h by lia; exact Hlin).
Qed.

Lemma padded_extent (elem t x y w h ds : Z) :
  t = 2 \/ t = 4 -> 0 < elem -> 0 <= x -> 0 <= y -> 0 < w -> 0 < h ->
  padded elem t x y w h ds ->
  x + w <= 2 ^ 30 /\ y + h <= 2 ^ 30.
Proof.
  intros Ht He Hx Hy Hw Hh Hpad.
  pose proof (padded_facts elem t x y w h ds Ht He Hx Hy Hpad (x + w - 1) (y + h - 1)
                ltac:(lia) ltac:(lia)) as (_ & _ & _ & _ & X30 & Y30 & _).
  lia.
Qed.

Section RoundTrip.
Variables (desc : util_format_description) (elem : Z).
Variables (dstT srcL x y w h ts ls : Z).
Hypothesis Helem : elem_of_bpp (bits (block desc)) = Some elem.
Hypothesis Hx : 0 <= x.
Hypothesis Hy : 0 <= y.
Hypothesis Hw : 0 < units_w desc w.
Hypothesis Hh : 0 < units_h desc h.
Hypothesis H16 : width (block desc) <= 1 -> x + w < 2 ^ 16 /\ y + h < 2 ^ 16.
Hypothesis Hpad :
  padded elem (tile_shift_of desc) x y (units_w desc w) (units_h desc h) ts.
Hypothesis Hls : 0 <= ls.
Hypothesis Hlin : units_h desc h * ls <= 2 ^ 32.

Lemma roundtrip_shift : tile_shift_of desc = 2 \/ tile_shift_of desc = 4.
Proof. unfold tile_shift_of. destruct (1 <? width (block desc)); auto. Qed.

Lemma roundtrip_elem_pos : 0 < elem.
Proof. destruct (elem_of_bpp_cases _ _ Helem) as [[_ ->] | [[_ ->] | [[_ ->] | [[_ ->] | [_ ->]]]]]; lia. Qed.

Lemma roundtrip_extent :
  x + units_w desc w <= 2 ^ 30 /\ y + units_h desc h <= 2 ^ 30.
Proof.
  apply (padded_extent elem (tile_shift_of desc) x y (units_w desc w) (units_h desc h) ts);
    try assumption.
  - apply roundtrip_shift.
  - apply roundtrip_elem_pos.
Qed.

(** The store performs one assignment per element of the rectangle. *)
Lemma store_pixels (T L : mem) :
  exists ops,
    panfrost_store_tiled_image (T, L) dstT srcL x y w h ts ls desc =
      run_ops elem true ops (T, L) /\
    forall o, In o ops <->
      exists X Y, in_rect (mk_rect x y (units_w desc w) (units_h desc h)) X Y /\
        o = pixel_op elem (tile_shift_of desc) dstT srcL x y ts ls X Y.
Proof.
  pose proof roundtrip_extent as [E1 E2].
  set (t := tile_shift_of desc) in *.
  set (w' := units_w desc w) in *.
  set (h' := units_h desc h) in *.
  change (2 ^ 30) with 1073741824 in E1, E2.
  destruct (Z.ltb_spec 1 (width (block desc))) as [Hc | Hc].
  - exists (unaligned_ops elem t dstT srcL x y w' h' ts ls). split.
    + unfold panfrost_store_tiled_image.
      destruct (Z.ltb_spec 1 (width (block desc))); [|lia].
      apply generic_run_ops, Helem.
    + intros o. apply whole_ops_in; try assumption;
        change (2 ^ 31) with 2147483648; lia.
  - destruct (elem_shift _ _ Helem) as (shift & Hs & E & Hbits).
    destruct (H16 Hc) as [Hxw Hyh].
    assert (Ew : w' = w)
      by (unfold w', units_w; destruct (Z.ltb_spec 1 (width (block desc))); lia).
    assert (Eh : h' = h)
      by (unfold h', units_h; destruct (Z.ltb_spec 1 (width (block desc))); lia).
    assert (Et : t = 4)
      by (unfold t, tile_shift_of; destruct (Z.ltb_spec 1 (width (block desc))); lia).
    exists (store_ops shift dstT srcL x y w h ts ls). split.
    + rewrite E. apply store_run_ops; assumption.
    + intros o. rewrite Ew, Eh, Et, E.
      apply store_ops_in; try assumption; try lia;
        try (rewrite <- Eh; exact Hlin).
Qed.

Lemma store_then_read (T L : mem) (X Y k : Z) :
  x <= X < x + units_w desc w -> y <= Y < y + units_h desc h -> 0 <= k < elem ->
  fst (panfrost_store_tiled_image (T, L) dstT srcL x y w h ts ls desc)
      (unaligned_dest elem (tile_shift_of desc) dstT ts X Y + k)
  = L (srcL + (Y - y) * ls + elem * (X - x) + k).
Proof.
  intros HX HY Hk.
  destruct (store_pixels T L) as (ops & -> & Hops).
  set (t := tile_shift_of desc) in *.
  set (w' := units_w desc w) in *.
  set (h' := units_h desc h) in *.
  rewrite (run_ops_store_value elem ops T L
             (pixel_op elem t dstT srcL x y ts ls X Y)).
  - unfold pixel_op. cbn [fst snd]. f_equal. lia.
  - apply (pixel_ops_consistent elem t dstT srcL x y w' h' ts ls); try assumption.
    + apply roundtrip_shift.
    + apply roundtrip_elem_pos.
    + intros o Ho. apply Hops, Ho.
  - apply Hops. exists X, Y. split; [split; assumption | reflexivity].
  - unfold pixel_op, covers. cbn [fst]. lia.
Qed.

Lemma load_after_store (T L L0 : mem) (dstL a : Z) :
  (exists c r, 0 <= c < units_w desc w /\ 0 <= r < units_h desc h /\
     covers elem (dstL + r * ls + elem * c) a) ->
  fst (panfrost_load_tiled_image
         (L0, fst (panfrost_store_tiled_image (T, L) dstT srcL x y w h ts ls desc))
         dstL dstT x y w h ls ts desc) a
  = L (srcL + (a - dstL)).
Proof.
  intros (c & r & Hc & Hr & Hcov).
  pose proof roundtrip_extent as [E1 E2].
  change (2 ^ 30) with 1073741824 in E1, E2.
  set (T1 := fst (panfrost_store_tiled_image (T, L) dstT srcL x y w h ts ls desc)).
  unfold panfrost_load_tiled_image. cbv zeta. cbn [fst snd].
  rewrite (generic_run_ops desc elem) by assumption.
  set (t := tile_shift_of desc) in *.
  set (w' := units_w desc w) in *.
  set (h' := units_h desc h) in *.
  assert (Hin : forall o, In o (unaligned_ops elem t dstT dstL x y w' h' ts ls) <->
    exists X Y, in_rect (mk_rect x y w' h') X Y /\
      o = pixel_op elem t dstT dstL x y ts ls X Y).
  { intros o. apply whole_ops_in; try assumption;
      change (2 ^ 31) with 2147483648; lia. }
  destruct (run_ops_load_cases elem (unaligned_ops elem t dstT dstL x y w' h' ts ls)
              T1 L0 a) as [(o & I & C & V) | (N & _)].
  - rewrite V. apply Hin in I. destruct I as (X & Y & [HX HY] & ->).
    cbn [rx ry rw rh] in HX, HY. unfold pixel_op in *. cbn [fst snd] in *.
    unfold covers in C. subst T1.
    rewrite store_then_read by (try assumption; lia).
    f_equal. lia.
  - exfalso. apply (N (pixel_op elem t dstT dstL x y ts ls (x + c) (y + r))).
    + apply Hin. exists (x + c), (y + r). split; [|reflexivity].
      unfold in_rect. cbn [rx ry rw rh]. lia.
    + unfold pixel_op, covers in *. cbn [snd].
      replace (x + c - x) with c by lia. replace (y + r - y) with r by lia. exact Hcov.
Qed.
End RoundTrip.
(** C1 (as amended). For every element size, block-compressed or not, every
    rectangle with [w > 0] and [h > 0] and buffers that hold it, storing a
    linear image and loading the result back over the same rectangle
    returns the bytes of the linear image; for a format that is not
    block-compressed the far edges [x + w] and [y + h] are below 65536. *)
Theorem store_load_roundtrip (desc : util_format_description) (elem : Z)
    (T L L0 : mem) (dstT srcL dstL x y w h ts ls : Z) :
  elem_of_bpp (bits (block desc)) = Some elem ->
  0 <= x -> 0 <= y -> 0 < w -> 0 < h ->
  0 < units_w desc w -> 0 < units_h desc h ->
  (width (block desc) <= 1 -> x + w < 2 ^ 16 /\ y + h < 2 ^ 16) ->
  padded elem (tile_shift_of desc) x y (units_w desc w) (units_h desc h) ts ->
  0 <= ls -> units_h desc h * ls <= 2 ^ 32 ->
  forall c r k,
    0 <= c < units_w desc w -> 0 <= r < units_h desc h -> 0 <= k < elem ->
    fst (panfrost_load_tiled_image
           (L0, fst (panfrost_store_tiled_image (T, L) dstT srcL x y w h ts ls desc))
           dstL dstT x y w h ls ts desc)
        (dstL + r * ls + elem * c + k)
    = L (srcL + r * ls + elem * c + k).
Proof.
  intros He Hx Hy Hw Hh Hw' Hh' H16 Hpad Hls Hlin c r k Hc Hr Hk.
  rewrite (load_after_store desc elem dstT srcL x y w h ts ls) by
    (try assumption; exists c, r; unfold covers; repeat split; lia).
  f_equal. lia.
Qed.

Lemma store_load_roundtrip_witness :
  fst (panfrost_load_tiled_image
         (mem_zero,
          fst (panfrost_store_tiled_image (mem_zero, mem_ramp) 0 0 3 5 20 30 256 80 desc_rgba8))
         0 0 3 5 20 30 80 256 desc_rgba8)
      (0 + 7 * 80 + 4 * 9 + 2)
  = mem_ramp (0 + 7 * 80 + 4 * 9 + 2) /\
  fst (panfrost_load_tiled_image
         (mem_zero,
          fst (panfrost_store_tiled_image (mem_zero, mem_ramp) 0 0 4 8 10 7 128 32 desc_bc1))
         0 0 4 8 10 7 32 128 desc_bc1)
      (0 + 1 * 32 + 8 * 2 + 5)
  = mem_ramp (0 + 1 * 32 + 8 * 2 + 5).
Proof.
  split.
  - refine (store_load_roundtrip desc_rgba8 4 mem_zero mem_ramp mem_zero
              0 0 0 3 5 20 30 256 80 eq_refl _ _ _ _ _ _ _ _ _ _ 9 7 2 _ _ _);
      unfold padded, units_w, units_h, tile_shift_of, desc_rgba8; simpl; lia.
  - refine (store_load_roundtrip desc_bc1 8 mem_zero mem_ramp mem_zero
              0 0 0 4 8 10 7 128 32 eq_refl _ _ _ _ _ _ _ _ _ _ 2 1 5 _ _ _);
      try (intros Hwidth; exfalso; revert Hwidth);
      vm_compute; repeat split;
      first [reflexivity | discriminate | (intros E; apply E; reflexivity)].
Defined.

(** The claim C1 as stated fails from row 65536 on, with buffers that hold
    the rectangle: the store puts the pixels of the rectangle
    (0, 65536, 16, 16) at tile row 0, the load reads them at tile row 4096. *)
Lemma roundtrip_counterexample :
  padded 4 4 0 65536 16 16 64 /\ 16 * 64 <= 2 ^ 32 /\
  fst (panfrost_load_tiled_image
         (mem_zero,
          fst (panfrost_store_tiled_image (mem_zero, mem_ramp) 0 0 0 65536 16 16 64 64
                 desc_rgba8))
         0 0 0 65536 16 16 64 64 desc_rgba8) 1
  <> mem_ramp 1.
Proof.
  split; [unfold padded; simpl; lia|]. split; [lia|]. vm_compute. discriminate.
Qed.
(** ** The tile index is a bijection *)

(** C10. [(lx, ly) |-> bit_duplication[ly] ^ space_4[lx]] maps the 256
    coordinate pairs of a tile one-to-one onto the offsets 0..255, so two
    different pixels of a tile never share a byte of the tiled buffer. *)
Theorem tile_index_bijection :
  (forall lx ly, 0 <= lx < 16 -> 0 <= ly < 16 ->
     0 <= Z.lxor (bit_duplication ly) (space_4 lx) < 256) /\
  (forall lx ly lx' ly',
     0 <= lx < 16 -> 0 <= ly < 16 -> 0 <= lx' < 16 -> 0 <= ly' < 16 ->
     Z.lxor (bit_duplication ly) (space_4 lx) = Z.lxor (bit_duplication ly') (space_4 lx') ->
     lx = lx' /\ ly = ly') /\
  (forall o, 0 <= o < 256 ->
     exists lx ly, 0 <= lx < 16 /\ 0 <= ly < 16 /\
       Z.lxor (bit_duplication ly) (space_4 lx) = o) /\
  (forall elem dst ds tx ty lx ly lx' ly' a,
     0 < elem -> 0 <= tx < 2 ^ 24 -> 0 <= ty < 2 ^ 27 ->
     0 <= lx < 16 -> 0 <= ly < 16 -> 0 <= lx' < 16 -> 0 <= ly' < 16 ->
     covers elem (unaligned_dest elem 4 dst ds (16 * tx + lx) (16 * ty + ly)) a ->
     covers elem (unaligned_dest elem 4 dst ds (16 * tx + lx') (16 * ty + ly')) a ->
     lx = lx' /\ ly = ly').
Proof.
  split; [|split; [|split]].
  - intros lx ly Hx Hy. exact (proj1 (tile_index_coords lx ly Hx Hy)).
  - intros lx ly lx' ly' Hx Hy Hx' Hy' E. exact (tile_index_inj lx ly lx' ly' Hx Hy Hx' Hy' E).
  - intros o Ho. destruct (tile_coords_index o Ho) as (H1 & H2 & H3).
    exists (fst (tile_coords o)), (snd (tile_coords o)). repeat split; try lia. exact H3.
  - intros elem dst ds tx ty lx ly lx' ly' a He Htx Hty Hx Hy Hx' Hy'.
    rewrite !unaligned_dest_tile by assumption. unfold covers. intros C1 C2.
    apply tile_index_inj; try assumption.
    assert (tile_index lx ly < tile_index lx' ly' + 1) by nia.
    assert (tile_index lx' ly' < tile_index lx ly + 1) by nia.
    lia.
Qed.

Lemma tile_index_bijection_witness :
  0 <= Z.lxor (bit_duplication 9) (space_4 5) < 256 /\
  exists lx ly, 0 <= lx < 16 /\ 0 <= ly < 16 /\
    Z.lxor (bit_duplication ly) (space_4 lx) = 210.
Proof.
  split.
  - exact (proj1 tile_index_bijection 5 9 ltac:(lia) ltac:(lia)).
  - exact (proj1 (proj2 (proj2 tile_index_bijection)) 210 ltac:(lia)).
Defined.

(** * Further properties of the tiling routines *)

(** ** The documented bit pattern *)

(** X1. The position of an element inside its tile has the bit pattern the
    header comment of the file gives,
    [| y3 | x3 ^ y3 | y2 | x2 ^ y2 | y1 | x1 ^ y1 | y0 | x0 ^ y0 |]: bit
    [2i + 1] is bit [i] of the local [y], bit [2i] is the exclusive or of the
    bits [i] of the local [x] and [y]. *)
Theorem tile_index_bit_pattern (lx ly i : Z) :
  0 <= lx < 16 -> 0 <= ly < 16 -> 0 <= i < 4 ->
  Z.testbit (Z.lxor (bit_duplication ly) (space_4 lx)) (2 * i + 1) = Z.testbit ly i /\
  Z.testbit (Z.lxor (bit_duplication ly) (space_4 lx)) (2 * i) =
    xorb (Z.testbit ly i) (Z.testbit lx i).
Proof.
  intros Hx Hy Hi.
  assert (Hb : forallb (fun a => forallb (fun b => forallb (fun j =>
      Bool.eqb (Z.testbit (Z.lxor (bit_duplication b) (space_4 a)) (2 * j + 1))
               (Z.testbit b j)
      && Bool.eqb (Z.testbit (Z.lxor (bit_duplication b) (space_4 a)) (2 * j))
                  (xorb (Z.testbit b j) (Z.testbit a j)))
      (seqZ 4)) (seqZ 16)) (seqZ 16) = true) by (vm_compute; reflexivity).
  rewrite forallb_forall in Hb. specialize (Hb lx (proj2 (in_seqZ 16 lx) Hx)).
  rewrite forallb_forall in Hb. specialize (Hb ly (proj2 (in_seqZ 16 ly) Hy)).
  rewrite forallb_forall in Hb. specialize (Hb i (proj2 (in_seqZ 4 i) Hi)).
  apply andb_true_iff in Hb. destruct Hb as [H1 H2].
  split; apply Bool.eqb_prop; assumption.
Qed.

Lemma tile_index_bit_pattern_witness :
  Z.testbit (Z.lxor (bit_duplication 9) (space_4 5)) 7 = Z.testbit 9 3 /\
  Z.testbit (Z.lxor (bit_duplication 9) (space_4 5)) 6 =
    xorb (Z.testbit 9 3) (Z.testbit 5 3).
Proof.
  exact (tile_index_bit_pattern 5 9 3 ltac:(lia) ltac:(lia) ltac:(lia)).
Defined.

(** X2. The two tables are related as the header comment says: duplicating
    the bits of a nibble is spacing them out and adding the copy shifted by
    one, [bit_duplication[n] = space_4[n] | (space_4[n] << 1)]. *)
Theorem duplication_is_doubled_spacing (n : Z) :
  0 <= n < 16 ->
  bit_duplication n = Z.lor (space_4 n) (Z.shiftl (space_4 n) 1) /\
  bit_duplication n = 3 * space_4 n.
Proof.
  intros Hn.
  assert (Hb : forallb (fun a =>
      (bit_duplication a =? Z.lor (space_4 a) (Z.shiftl (space_4 a) 1))
      && (bit_duplication a =? 3 * space_4 a)) (seqZ 16) = true)
    by (vm_compute; reflexivity).
  pose proof (forall_range 16 _ Hb n Hn) as H. cbv beta in H.
  apply andb_true_iff in H. lia.
Qed.

Lemma duplication_is_doubled_spacing_witness :
  bit_duplication 10 = 3 * space_4 10.
Proof. exact (proj2 (duplication_is_doubled_spacing 10 ltac:(lia))). Defined.

(** ** The aligned routine works on whole groups of 16 pixels *)

(** X3. [TILED_STORE_TYPE] copies whole groups of 16 pixels: a width that is
    not a multiple of 16 is treated as the next multiple of 16, so the
    routine reads and writes past the [w] pixels of each row. *)
Theorem aligned_store_rounds_width_up (shift : Z) (b : bufs)
    (dst src sx sy w h ds ss : Z) :
  0 <= shift -> 0 <= w -> 16 * ((w + 15) / 16) < 2 ^ 16 ->
  TILED_STORE_TYPE shift b dst src sx sy w h ds ss =
  TILED_STORE_TYPE shift b dst src sx sy (16 * ((w + 15) / 16)) h ds ss.
Proof.
  intros Hs Hw Hr. rewrite !aligned_run by assumption. f_equal.
  unfold aligned_ops.
  pose proof (Z.div_mod (w + 15) 16 ltac:(lia)) as D.
  pose proof (Z.mod_pos_bound (w + 15) 16 ltac:(lia)) as M.
  rewrite (u16_small w) by lia.
  rewrite (u16_small (16 * ((w + 15) / 16))) by lia.
  replace ((16 * ((w + 15) / 16) + 15) / 16) with ((w + 15) / 16)
    by (apply Z.div_unique with 15; lia).
  reflexivity.
Qed.

Lemma aligned_store_rounds_width_up_witness :
  TILED_STORE_TYPE 2 (mem_zero, mem_ramp) 0 0 0 0 5 2 64 64 =
  TILED_STORE_TYPE 2 (mem_zero, mem_ramp) 0 0 0 0 16 2 64 64.
Proof.
  exact (aligned_store_rounds_width_up 2 (mem_zero, mem_ramp) 0 0 0 0 5 2 64 64
           ltac:(lia) ltac:(lia) ltac:(simpl; lia)).
Defined.
(** ** Splitting a run of the generic routine by rows *)

Lemma flat_map_map {A B C : Type} (f : B -> list C) (g : A -> B) (l : list A) :
  flat_map f (map g l) = flat_map (fun x => f (g x)) l.
Proof. induction l as [|x l IH]; simpl; [reflexivity | rewrite IH; reflexivity]. Qed.

Lemma flat_map_ext_in_seq {A : Type} (f g : Z -> list A) (n : nat) :
  (forall r, 0 <= r < Z.of_nat n -> f r = g r) ->
  flat_map f (seqZ n) = flat_map g (seqZ n).
Proof.
  intros H. rewrite !flat_map_concat_map. f_equal.
  apply map_ext_in. intros r Hr. apply H, in_seqZ, Hr.
Qed.

Lemma unaligned_ops_rows (elem t dst src sx sy w h1 h2 ds ss : Z) :
  0 <= h1 -> 0 <= h2 -> 0 <= sy -> sy + h1 + h2 < 2 ^ 31 ->
  0 <= ss -> (h1 + h2) * ss <= 2 ^ 32 ->
  unaligned_ops elem t dst src sx sy w (h1 + h2) ds ss =
  unaligned_ops elem t dst src sx sy w h1 ds ss ++
  unaligned_ops elem t dst (src + h1 * ss) sx (sy + h1) w h2 ds ss.
Proof.
  intros H1 H2 Hsy Hrows Hss Hlin. unfold unaligned_ops.
  rewrite Z2Nat.inj_add, seqZ_app, flat_map_app by assumption.
  apply app_inv_head_iff.
  rewrite flat_map_map. apply flat_map_ext_in_seq. intros r Hr.
  rewrite Z2Nat.id in * by assumption.
  apply map_ext. intros c.
  rewrite (s32_small sy), (s32_small (sy + h1)) by lia. unfold unaligned_source.
  assert (E1 : u32 ((h1 + r) * ss) = (h1 + r) * ss).
  { apply u32_small. split; [nia|].
    assert ((h1 + r) * ss <= (h1 + h2 - 1) * ss) by nia. nia. }
  assert (E2 : u32 (r * ss) = r * ss).
  { apply u32_small. split; [nia|].
    assert (r * ss <= (h1 + h2 - 1) * ss) by nia. nia. }
  rewrite E1, E2. f_equal; [f_equal; lia | ring].
Qed.

(** X4. For a format that is not block-compressed, one run of the generic
    routine over [h1 + h2] rows is a run over the first [h1] rows followed by
    a run over the next [h2] rows with the linear pointer advanced by [h1]
    strides: the same assignments in the same order, in either direction.
    This is the identity the top and bottom steps of the store rest on. *)
Theorem generic_rows_compose (desc : util_format_description) (is_store : bool)
    (b : bufs) (dst src sx sy w h1 h2 ds ss : Z) :
  width (block desc) <= 1 ->
  0 <= h1 -> 0 <= h2 -> 0 <= sy -> sy + h1 + h2 < 2 ^ 31 ->
  0 <= ss -> (h1 + h2) * ss <= 2 ^ 32 ->
  panfrost_access_tiled_image_generic b dst src sx sy w (h1 + h2) ds ss desc is_store =
  panfrost_access_tiled_image_generic
    (panfrost_access_tiled_image_generic b dst src sx sy w h1 ds ss desc is_store)
    dst (src + h1 * ss) sx (sy + h1) w h2 ds ss desc is_store.
Proof.
  intros Hwd H1 H2 Hsy Hrows Hss Hlin.
  destruct (elem_of_bpp (bits (block desc))) as [elem|] eqn:He.
  - rewrite !(generic_uncompressed desc elem) by assumption.
    rewrite !unaligned_run, <- run_ops_app. f_equal.
    apply unaligned_ops_rows; assumption.
  - rewrite !generic_unsupported by assumption. reflexivity.
Qed.

Lemma generic_rows_compose_witness :
  panfrost_access_tiled_image_generic (mem_zero, mem_ramp) 0 0 3 5 20 (11 + 19) 256 80
    desc_rgba8 true =
  panfrost_access_tiled_image_generic
    (panfrost_access_tiled_image_generic (mem_zero, mem_ramp) 0 0 3 5 20 11 256 80
       desc_rgba8 true)
    0 (0 + 11 * 80) 3 (5 + 11) 20 19 256 80 desc_rgba8 true.
Proof.
  apply (generic_rows_compose desc_rgba8 true (mem_zero, mem_ramp) 0 0 3 5 20 11 19 256 80);
    simpl; lia.
Defined.

(** ** Empty rectangles *)

Lemma flat_map_nil {A B : Type} (f : A -> list B) (l : list A) :
  (forall x, f x = []) -> flat_map f l = [].
Proof.
  intros H. induction l as [|x l IH]; simpl; [reflexivity|]. rewrite H, IH. reflexivity.
Qed.

Lemma unaligned_ops_empty (elem t dst src sx sy w h ds ss : Z) :
  w <= 0 \/ h <= 0 -> unaligned_ops elem t dst src sx sy w h ds ss = [].
Proof.
  intros [Hw | Hh]; unfold unaligned_ops.
  - apply flat_map_nil. intros r.
    replace (Z.to_nat w) with 0%nat by lia. reflexivity.
  - replace (Z.to_nat h) with 0%nat by lia. reflexivity.
Qed.

Lemma aligned_ops_empty (shift dst src sx sy w h ds ss : Z) :
  u16 w = 0 \/ u16 h = 0 -> aligned_ops shift dst src sx sy w h ds ss = [].
Proof.
  intros [Hw | Hh]; unfold aligned_ops.
  - rewrite Hw. apply flat_map_nil. intros r. reflexivity.
  - rewrite Hh. reflexivity.
Qed.

Lemma DIV_ROUND_UP_zero (b : Z) : 0 < b < 2 ^ 32 -> DIV_ROUND_UP 0 b = 0.
Proof.
  intros Hb. unfold DIV_ROUND_UP. rewrite u32_small by lia.
  apply Z.div_small. lia.
Qed.

Lemma generic_empty (desc : util_format_description) (s : bool) (b : bufs)
    (dst src sx sy w h ds ss : Z) :
  w = 0 \/ h = 0 ->
  (1 < width (block desc) ->
     width (block desc) < 2 ^ 32 /\ 0 < height (block desc) < 2 ^ 32) ->
  panfrost_access_tiled_image_generic b dst src sx sy w h ds ss desc s = b.
Proof.
  intros Hwh Hblk.
  destruct (elem_of_bpp (bits (block desc))) as [elem|] eqn:He;
    [|apply generic_unsupported, He].
  rewrite (generic_run_ops desc elem) by assumption.
  rewrite unaligned_ops_empty; [reflexivity|].
  unfold units_w, units_h.
  destruct (Z.ltb_spec 1 (width (block desc))) as [Hc | Hc]; [|lia].
  destruct (Hblk Hc) as [Hbw Hbh].
  destruct Hwh as [-> | ->]; [left | right]; rewrite DIV_ROUND_UP_zero; lia.
Qed.

Lemma run_step_empty (desc : util_format_description) (b : bufs)
    (dst src ox oy ds ss : Z) (k : step_kind) (r : rect) :
  width (block desc) <= 1 ->
  rw r = 0 \/ rh r = 0 ->
  run_step desc dst src ox oy ds ss b (k, r) = b.
Proof.
  intros Hwd Hr. unfold run_step. cbn [fst snd].
  assert (G : forall p, panfrost_access_tiled_image_generic b dst p (rx r) (ry r) (rw r)
                          (rh r) ds ss desc true = b)
    by (intros p; apply generic_empty; [exact Hr | lia]).
  destruct k; try apply G.
  destruct (elem_of_bpp (bits (block desc))) as [elem|] eqn:He;
    [|apply store_interior_unsupported, He].
  destruct (elem_shift _ _ He) as (shift & Hs & -> & ->).
  rewrite store_interior_aligned, aligned_run by lia.
  rewrite aligned_ops_empty; [reflexivity|].
  destruct Hr as [-> | ->]; [left | right]; reflexivity.
Qed.

(** X5. A rectangle of width 0 or of height 0 is a no-op: the store and the
    load return both buffers as they are, whatever the format. *)
Theorem empty_rectangle_is_noop (desc : util_format_description) (b : bufs)
    (dst src x y w h ds ss : Z) :
  w = 0 \/ h = 0 ->
  0 <= x -> 0 <= y -> 0 <= w -> 0 <= h -> x + w < 2 ^ 32 -> y + h < 2 ^ 32 ->
  (1 < width (block desc) ->
     width (block desc) < 2 ^ 32 /\ 0 < height (block desc) < 2 ^ 32) ->
  panfrost_store_tiled_image b dst src x y w h ds ss desc = b /\
  panfrost_load_tiled_image b dst src x y w h ds ss desc = b.
Proof.
  intros Hwh Hx Hy Hw Hh Hxw Hyh Hblk. split.
  - destruct (Z.ltb_spec 1 (width (block desc))) as [Hc | Hc].
    + unfold panfrost_store_tiled_image.
      destruct (Z.ltb_spec 1 (width (block desc))); [|lia].
      apply generic_empty; assumption.
    + rewrite store_as_plan by assumption.
      assert (Hall : forall s, In s (store_plan x y w h) ->
                rw (snd s) = 0 \/ rh (snd s) = 0).
      { intros [k r] Hin. rewrite store_plan_spec in Hin by assumption.
        pose proof (top_spec_inside x y w h Hx Hy Hw Hh k r Hin). cbn [snd]. lia. }
      revert Hall. generalize (store_plan x y w h). intros l.
      revert b. induction l as [|[k r] l IH]; intros b Hall; [reflexivity|].
      cbn [fold_left]. rewrite run_step_empty;
        [| exact Hc | exact (Hall (k, r) (or_introl eq_refl))].
      apply IH. intros s Hs. apply Hall. right. exact Hs.
  - unfold panfrost_load_tiled_image. cbv zeta.
    rewrite generic_empty by assumption. destruct b; reflexivity.
Qed.

Lemma empty_rectangle_is_noop_witness :
  panfrost_store_tiled_image (mem_zero, mem_ramp) 0 0 3 5 0 30 256 80 desc_rgba8 =
    (mem_zero, mem_ramp) /\
  panfrost_load_tiled_image (mem_zero, mem_ramp) 0 0 4 8 10 0 32 128 desc_bc1 =
    (mem_zero, mem_ramp).
Proof.
  split.
  - apply (empty_rectangle_is_noop desc_rgba8 (mem_zero, mem_ramp) 0 0 3 5 0 30 256 80);
      try (simpl; lia).
  - apply (empty_rectangle_is_noop desc_bc1 (mem_zero, mem_ramp) 0 0 4 8 10 0 32 128);
      try (simpl; lia).
Defined.
(** ** Repeating a store or a load *)

Lemma run_ops_store_agree (elem : Z) (ops : list op) (D D' Sm : mem) (a : Z) :
  D a = D' a \/ (exists o, In o ops /\ covers elem (fst o) a) ->
  fst (run_ops elem true ops (D, Sm)) a = fst (run_ops elem true ops (D', Sm)) a.
Proof.
  induction ops as [|o ops IH] using rev_ind; intros H.
  - destruct H as [H | (o & [] & _)]. exact H.
  - rewrite !run_ops_app.
    pose proof (run_ops_store_src elem ops (D, Sm)) as H1.
    pose proof (run_ops_store_src elem ops (D', Sm)) as H2.
    destruct (run_ops elem true ops (D, Sm)) as [D1 S1].
    destruct (run_ops elem true ops (D', Sm)) as [D2 S2].
    cbn [fst snd] in *. subst S1 S2.
    cbn [run_ops fold_left assign_pixel fst snd]. unfold copy_pixel.
    destruct ((fst o <=? a) && (a <? fst o + elem)) eqn:C; [reflexivity|].
    apply IH. destruct H as [H | (o' & Hin & Hc)]; [left; exact H|].
    apply in_app_or in Hin. destruct Hin as [Hin | [<- | []]].
    + right. exists o'. split; assumption.
    + exfalso. unfold covers in Hc. apply andb_false_iff in C. lia.
Qed.

Lemma run_ops_store_twice (elem : Z) (ops : list op) (b : bufs) :
  snd (run_ops elem true ops (run_ops elem true ops b)) = snd (run_ops elem true ops b) /\
  forall a, fst (run_ops elem true ops (run_ops elem true ops b)) a =
            fst (run_ops elem true ops b) a.
Proof.
  split; [rewrite !run_ops_store_src; reflexivity|].
  intros a. destruct b as [D Sm].
  pose proof (run_ops_store_src elem ops (D, Sm)) as HS.
  destruct (run_ops elem true ops (D, Sm)) as [D1 S1] eqn:E. cbn [snd] in HS. subst S1.
  rewrite <- E at 2. apply run_ops_store_agree.
  destruct (run_ops_store_cases elem ops D Sm a) as [(o & I & C & _) | (_ & V)].
  - right. exists o. split; assumption.
  - left. rewrite E in V. exact V.
Qed.

Lemma run_ops_load_as_store (elem : Z) (ops : list op) (D Sm : mem) :
  run_ops elem false ops (D, Sm) =
  (snd (run_ops elem true (map swap_op ops) (Sm, D)),
   fst (run_ops elem true (map swap_op ops) (Sm, D))).
Proof.
  revert Sm. induction ops as [|o ops IH]; intros Sm; [reflexivity|].
  change (run_ops elem false (o :: ops) (D, Sm))
    with (run_ops elem false ops (assign_pixel elem false (D, Sm) (fst o) (snd o))).
  cbn [map].
  change (run_ops elem true (swap_op o :: map swap_op ops) (Sm, D))
    with (run_ops elem true (map swap_op ops)
            (assign_pixel elem true (Sm, D) (fst (swap_op o)) (snd (swap_op o)))).
  cbn [assign_pixel swap_op fst snd]. apply IH.
Qed.

Lemma store_is_ops (desc : util_format_description) (dst src x y w h ds ss : Z) :
  exists elem ops, forall b,
    panfrost_store_tiled_image b dst src x y w h ds ss desc = run_ops elem true ops b.
Proof.
  destruct (elem_of_bpp (bits (block desc))) as [elem|] eqn:He.
  - destruct (Z.ltb_spec 1 (width (block desc))) as [Hc | Hc].
    + exists elem. eexists. intros b. unfold panfrost_store_tiled_image.
      destruct (Z.ltb_spec 1 (width (block desc))); [|lia].
      apply generic_run_ops, He.
    + destruct (elem_shift _ _ He) as (shift & Hs & -> & Hbits).
      exists (2 ^ shift). eexists. intros b. apply store_run_ops; assumption.
  - exists 1, []. intros b. apply store_unsupported, He.
Qed.

Lemma load_is_ops (desc : util_format_description) (dst src x y w h ds ss : Z) :
  exists elem ops, forall b,
    panfrost_load_tiled_image b dst src x y w h ds ss desc = run_ops elem true ops b.
Proof.
  destruct (elem_of_bpp (bits (block desc))) as [elem|] eqn:He.
  - exists elem. eexists. intros [D Sm]. unfold panfrost_load_tiled_image. cbv zeta.
    cbn [fst snd]. rewrite (generic_run_ops desc elem) by assumption.
    rewrite run_ops_load_as_store. cbn [fst snd].
    rewrite <- surjective_pairing. reflexivity.
  - exists 1, []. intros [D Sm]. unfold panfrost_load_tiled_image. cbv zeta.
    rewrite generic_unsupported by assumption. reflexivity.
Qed.

(** X6. Storing a rectangle twice leaves what storing it once leaves, and
    so does loading it twice: for every format, rectangle and pair of
    buffers, padded or not. *)
Theorem store_and_load_are_idempotent (desc : util_format_description) (b : bufs)
    (dst src x y w h ds ss : Z) (a : Z) :
  fst (panfrost_store_tiled_image
         (panfrost_store_tiled_image b dst src x y w h ds ss desc)
         dst src x y w h ds ss desc) a
  = fst (panfrost_store_tiled_image b dst src x y w h ds ss desc) a /\
  snd (panfrost_store_tiled_image
         (panfrost_store_tiled_image b dst src x y w h ds ss desc)
         dst src x y w h ds ss desc)
  = snd (panfrost_store_tiled_image b dst src x y w h ds ss desc) /\
  fst (panfrost_load_tiled_image
         (panfrost_load_tiled_image b dst src x y w h ds ss desc)
         dst src x y w h ds ss desc) a
  = fst (panfrost_load_tiled_image b dst src x y w h ds ss desc) a /\
  snd (panfrost_load_tiled_image
         (panfrost_load_tiled_image b dst src x y w h ds ss desc)
         dst src x y w h ds ss desc)
  = snd (panfrost_load_tiled_image b dst src x y w h ds ss desc).
Proof.
  destruct (store_is_ops desc dst src x y w h ds ss) as (e1 & ops1 & E1).
  destruct (load_is_ops desc dst src x y w h ds ss) as (e2 & ops2 & E2).
  rewrite !E1, !E2.
  destruct (run_ops_store_twice e1 ops1 b) as [S1 F1].
  destruct (run_ops_store_twice e2 ops2 b) as [S2 F2].
  repeat split; auto.
Qed.
(** ** What the store and the load put where *)

(** X7. In buffers that hold the rectangle, the store puts each element of
    the rectangle at its place in the tiled image: byte [k] of the element at
    ([X], [Y]) is byte [k] of the element at ([X - x], [Y - y]) of the linear
    source.  Formats that are not block-compressed have their far edges below
    65536. *)
Theorem store_places_elements (desc : util_format_description) (elem : Z)
    (T L : mem) (dstT srcL x y w h ts ls X Y k : Z) :
  elem_of_bpp (bits (block desc)) = Some elem ->
  0 <= x -> 0 <= y ->
  0 < units_w desc w -> 0 < units_h desc h ->
  (width (block desc) <= 1 -> x + w < 2 ^ 16 /\ y + h < 2 ^ 16) ->
  padded elem (tile_shift_of desc) x y (units_w desc w) (units_h desc h) ts ->
  0 <= ls -> units_h desc h * ls <= 2 ^ 32 ->
  x <= X < x + units_w desc w -> y <= Y < y + units_h desc h -> 0 <= k < elem ->
  fst (panfrost_store_tiled_image (T, L) dstT srcL x y w h ts ls desc)
      (unaligned_dest elem (tile_shift_of desc) dstT ts X Y + k)
  = L (srcL + (Y - y) * ls + elem * (X - x) + k).
Proof.
  intros. apply store_then_read; assumption.
Qed.

Lemma store_places_elements_witness :
  fst (panfrost_store_tiled_image (mem_zero, mem_ramp) 0 0 3 5 20 30 256 80 desc_rgba8)
      (unaligned_dest 4 (tile_shift_of desc_rgba8) 0 256 17 20 + 2)
  = mem_ramp (0 + (20 - 5) * 80 + 4 * (17 - 3) + 2).
Proof.
  apply (store_places_elements desc_rgba8 4 mem_zero mem_ramp 0 0 3 5 20 30 256 80 17 20 2);
    try reflexivity;
    unfold padded, units_w, units_h, tile_shift_of, desc_rgba8; simpl; lia.
Defined.

Lemma linear_inj (elem ls w c r c' r' a : Z) :
  0 < elem -> elem * w <= ls ->
  0 <= c < w -> 0 <= r -> 0 <= c' < w -> 0 <= r' ->
  r * ls + elem * c <= a < r * ls + elem * c + elem ->
  r' * ls + elem * c' <= a < r' * ls + elem * c' + elem ->
  r = r' /\ c = c'.
Proof.
  intros He Hls Hc Hr Hc' Hr' A1 A2.
  assert (Hrow : forall c, 0 <= c < w -> 0 <= elem * c /\ elem * c + elem <= ls).
  { intros c0 H0. split; [nia|].
    assert (elem * (c0 + 1) <= elem * w) by (apply Z.mul_le_mono_nonneg_l; lia). nia. }
  pose proof (Hrow c Hc) as [R1 R2]. pose proof (Hrow c' Hc') as [R1' R2'].
  assert (E : r = r').
  { destruct (Z.lt_trichotomy r r') as [Hlt | [Heq | Hgt]]; [exfalso | exact Heq | exfalso].
    - assert ((r + 1) * ls <= r' * ls) by nia. nia.
    - assert ((r' + 1) * ls <= r * ls) by nia. nia. }
  subst r'. split; [reflexivity|].
  destruct (Z.lt_trichotomy c c') as [Hlt | [Heq | Hgt]]; [exfalso | exact Heq | exfalso]; nia.
Qed.

(** X8. Where the rows of the linear destination do not overlap, the load
    puts each element of the rectangle at its place in the linear image:
    byte [k] of the element in column [c] of row [r] is byte [k] of the
    element at ([x + c], [y + r]) of the tiled source.  This holds for every
    format and needs no bound of 65536. *)
Theorem load_places_elements (desc : util_format_description) (elem : Z)
    (L0 T : mem) (dstL srcT x y w h ls ts c r k : Z) :
  elem_of_bpp (bits (block desc)) = Some elem ->
  0 <= x -> 0 <= y ->
  x + units_w desc w <= 2 ^ 31 -> y + units_h desc h <= 2 ^ 31 ->
  elem * units_w desc w <= ls -> units_h desc h * ls <= 2 ^ 32 ->
  0 <= c < units_w desc w -> 0 <= r < units_h desc h -> 0 <= k < elem ->
  fst (panfrost_load_tiled_image (L0, T) dstL srcT x y w h ls ts desc)
      (dstL + r * ls + elem * c + k)
  = T (unaligned_dest elem (tile_shift_of desc) srcT ts (x + c) (y + r) + k).
Proof.
  intros He Hx Hy Hxw Hyh Hrowfit Hlin Hc Hr Hk.
  assert (He0 : 0 < elem) by lia.
  assert (Hls : 0 <= ls) by nia.
  unfold panfrost_load_tiled_image. cbv zeta. cbn [fst snd].
  rewrite (generic_run_ops desc elem) by assumption.
  set (t := tile_shift_of desc). set (w' := units_w desc w) in *.
  set (h' := units_h desc h) in *.
  assert (Hin : forall o, In o (unaligned_ops elem t srcT dstL x y w' h' ts ls) <->
    exists X Y, in_rect (mk_rect x y w' h') X Y /\
      o = pixel_op elem t srcT dstL x y ts ls X Y)
    by (intros o; apply whole_ops_in; assumption).
  destruct (run_ops_load_cases elem (unaligned_ops elem t srcT dstL x y w' h' ts ls)
              T L0 (dstL + r * ls + elem * c + k)) as [(o & I & C & V) | (N & _)].
  - rewrite V. apply Hin in I. destruct I as (X & Y & [HX HY] & ->).
    cbn [rx ry rw rh] in HX, HY. unfold pixel_op, covers in *. cbn [fst snd] in *.
    destruct (linear_inj elem ls w' c r (X - x) (Y - y) (r * ls + elem * c + k))
      as [E1 E2]; try lia.
    replace X with (x + c) by lia. replace Y with (y + r) by lia.
    f_equal. ring_simplify. lia.
  - exfalso. apply (N (pixel_op elem t srcT dstL x y ts ls (x + c) (y + r))).
    + apply Hin. exists (x + c), (y + r). split; [|reflexivity].
      unfold in_rect. cbn [rx ry rw rh]. lia.
    + unfold pixel_op, covers. cbn [snd].
      replace (x + c - x) with c by lia. replace (y + r - y) with r by lia. lia.
Qed.

Lemma load_places_elements_witness :
  fst (panfrost_load_tiled_image (mem_zero, mem_ramp) 0 0 3 5 20 30 80 256 desc_rgba8)
      (0 + 7 * 80 + 4 * 9 + 2)
  = mem_ramp (unaligned_dest 4 (tile_shift_of desc_rgba8) 0 256 (3 + 9) (5 + 7) + 2).
Proof.
  apply (load_places_elements desc_rgba8 4 mem_zero mem_ramp 0 0 3 5 20 30 80 256 9 7 2);
    try reflexivity;
    unfold units_w, units_h, desc_rgba8; simpl; lia.
Defined.

(** ** Round trip from the tiled side *)

(** X9. In buffers that hold the rectangle and with linear rows that do not
    overlap, loading a rectangle of a tiled image and storing the result back
    over the same rectangle restores the tiled image, byte for byte: the
    bytes of the rectangle come back and no other byte is touched.  Formats
    that are not block-compressed have their far edges below 65536. *)
Theorem load_store_roundtrip (desc : util_format_description) (elem : Z)
    (T L0 : mem) (dstT dstL x y w h ts ls a : Z) :
  elem_of_bpp (bits (block desc)) = Some elem ->
  0 <= x -> 0 <= y ->
  0 < units_w desc w -> 0 < units_h desc h ->
  (width (block desc) <= 1 -> x + w < 2 ^ 16 /\ y + h < 2 ^ 16) ->
  padded elem (tile_shift_of desc) x y (units_w desc w) (units_h desc h) ts ->
  elem * units_w desc w <= ls -> units_h desc h * ls <= 2 ^ 32 ->
  fst (panfrost_store_tiled_image
         (T, fst (panfrost_load_tiled_image (L0, T) dstL dstT x y w h ls ts desc))
         dstT dstL x y w h ts ls desc) a
  = T a.
Proof.
  intros He Hx Hy Hw Hh H16 Hpad Hrowfit Hlin.
  assert (He0 : 0 < elem)
    by (destruct (elem_of_bpp_cases _ _ He)
          as [[_ ->] | [[_ ->] | [[_ ->] | [[_ ->] | [_ ->]]]]]; lia).
  assert (Hls : 0 <= ls) by nia.
  pose proof (roundtrip_extent desc elem x y w h ts He Hx Hy Hw Hh Hpad) as [E1 E2].
  set (L1 := fst (panfrost_load_tiled_image (L0, T) dstL dstT x y w h ls ts desc)).
  destruct (store_pixels desc elem dstT dstL x y w h ts ls He Hx Hy Hw Hh H16 Hpad Hls Hlin
              T L1) as (ops & -> & Hops).
  destruct (run_ops_store_cases elem ops T L1 a) as [(o & I & C & V) | (_ & V)];
    [|exact V].
  rewrite V. apply Hops in I. destruct I as (X & Y & [HX HY] & ->).
  cbn [rx ry rw rh] in HX, HY. unfold pixel_op, covers in *. cbn [fst snd] in *.
  subst L1.
  rewrite (load_places_elements desc elem L0 T dstL dstT x y w h ls ts (X - x) (Y - y)
             (a - unaligned_dest elem (tile_shift_of desc) dstT ts X Y));
    try assumption; try lia.
  f_equal. replace (x + (X - x)) with X by lia. replace (y + (Y - y)) with Y by lia. lia.
Qed.

Lemma load_store_roundtrip_witness :
  fst (panfrost_store_tiled_image
         (mem_ramp,
          fst (panfrost_load_tiled_image (mem_zero, mem_ramp) 0 0 3 5 20 30 80 256
                 desc_rgba8))
         0 0 3 5 20 30 256 80 desc_rgba8) 4660
  = mem_ramp 4660.
Proof.
  apply (load_store_roundtrip desc_rgba8 4 mem_ramp mem_zero 0 0 3 5 20 30 256 80 4660);
    try reflexivity;
    unfold padded, units_w, units_h, tile_shift_of, desc_rgba8; simpl; lia.
Defined.
(** ** A single pixel *)

Lemma OFFSET_origin (x y ss bpp src : Z) : OFFSET x y ss bpp src x y = src.
Proof.
  unfold OFFSET. rewrite !Z.sub_diag. change (u32 0) with 0.
  rewrite !Z.mul_0_l. change (u32 0) with 0. lia.
Qed.

Lemma run_step_pixel (desc : util_format_description) (b : bufs)
    (dst src x y ds ss : Z) (k : step_kind) (r : rect) :
  k <> Interior ->
  rx r = x /\ ry r = y /\ rw r = 1 /\ rh r = 1 ->
  run_step desc dst src x y ds ss b (k, r) =
  panfrost_access_tiled_image_generic b dst src x y 1 1 ds ss desc true.
Proof.
  intros Hk (E1 & E2 & E3 & E4). unfold run_step. cbn [fst snd].
  rewrite E1, E2, E3, E4, OFFSET_origin. destruct k; try reflexivity. congruence.
Qed.

(** X10. For a format that is not block-compressed, the store of a single
    pixel, aligned or not, is one run of the generic routine on that pixel:
    one assignment at the pixel's place in its tile; the aligned routine
    receives an empty rectangle or is not reached. *)
Theorem single_pixel_store (desc : util_format_description) (b : bufs)
    (dst src x y ds ss : Z) :
  width (block desc) <= 1 -> 0 <= x < 2 ^ 31 -> 0 <= y < 2 ^ 31 ->
  panfrost_store_tiled_image b dst src x y 1 1 ds ss desc =
    panfrost_access_tiled_image_generic b dst src x y 1 1 ds ss desc true /\
  (forall elem, elem_of_bpp (bits (block desc)) = Some elem ->
     panfrost_store_tiled_image b dst src x y 1 1 ds ss desc =
     assign_pixel elem true b (unaligned_dest elem 4 dst ds x y) src).
Proof.
  intros Hwd Hx Hy.
  assert (E : panfrost_store_tiled_image b dst src x y 1 1 ds ss desc =
    panfrost_access_tiled_image_generic b dst src x y 1 1 ds ss desc true).
  { rewrite store_as_plan by assumption.
    change (2 ^ 31) with 2147483648 in Hx, Hy.
    rewrite store_plan_spec by (change (2 ^ 32) with 4294967296; lia).
    spec_cases; cbn [fold_left];
    try (exfalso; Z.div_mod_to_equations; lia);
    repeat match goal with
    | |- context [run_step desc dst src x y ds ss ?bb (?k, ?r)] =>
        first
          [ rewrite (run_step_empty desc bb dst src x y ds ss k r Hwd)
              by (cbn [rw rh]; Z.div_mod_to_equations; lia)
          | rewrite (run_step_pixel desc bb dst src x y ds ss k r)
              by (first [ discriminate
                        | cbn [rx ry rw rh]; Z.div_mod_to_equations; lia ]) ]
    end; reflexivity. }
  split; [exact E|].
  intros elem He. rewrite E. apply generic_one_pixel; assumption.
Qed.

Lemma single_pixel_store_witness :
  panfrost_store_tiled_image (mem_zero, mem_ramp) 0 0 37 21 1 1 256 80 desc_rgba8 =
  assign_pixel 4 true (mem_zero, mem_ramp) (unaligned_dest 4 4 0 256 37 21) 0.
Proof.
  exact (proj2 (single_pixel_store desc_rgba8 (mem_zero, mem_ramp) 0 0 37 21 256 80
                  ltac:(simpl; lia) ltac:(lia) ltac:(lia)) 4 eq_refl).
Defined.

(** ** Coordinates of the aligned routine beyond 16 bits *)

Lemma top_spec_aligned (x y w h : Z) :
  x mod 16 = 0 -> y mod 16 = 0 -> w mod 16 = 0 -> h mod 16 = 0 ->
  top_spec x y w h = [ (Interior, mk_rect x y w h) ].
Proof.
  intros Ax Ay Aw Ah.
  assert (Axw : (x + w) mod 16 = 0) by (Z.div_mod_to_equations; lia).
  assert (Ayh : (y + h) mod 16 = 0) by (Z.div_mod_to_equations; lia).
  unfold top_spec, bottom_spec, left_spec, right_spec. cbv zeta.
  rewrite Ax, Ay, Axw, Ayh. reflexivity.
Qed.

Lemma aligned_store_u16 (shift : Z) (b : bufs) (dst src sx sy w h sx' sy' w' h' ds ss : Z) :
  u16 sx = u16 sx' -> u16 sy = u16 sy' -> u16 w = u16 w' -> u16 h = u16 h' ->
  TILED_STORE_TYPE shift b dst src sx sy w h ds ss =
  TILED_STORE_TYPE shift b dst src sx' sy' w' h' ds ss.
Proof.
  intros E1 E2 E3 E4. unfold TILED_STORE_TYPE. cbv zeta.
  rewrite E1, E2, E3, E4. reflexivity.
Qed.

(** X11. For a format that is not block-compressed and a rectangle whose
    [x], [y], [w] and [h] are multiples of 16, the store hands the whole
    rectangle to the aligned routine, whose parameters are [uint16_t]: two
    such rectangles that agree modulo 65536 are stored to the same bytes, so
    rows and columns from 65536 on are not reachable. *)
Theorem aligned_rectangle_store_wraps (desc : util_format_description) (b : bufs)
    (dst src x y w h x' y' w' h' ds ss : Z) :
  width (block desc) <= 1 ->
  0 <= x -> 0 <= y -> 0 <= w -> 0 <= h -> x + w < 2 ^ 32 -> y + h < 2 ^ 32 ->
  0 <= x' -> 0 <= y' -> 0 <= w' -> 0 <= h' -> x' + w' < 2 ^ 32 -> y' + h' < 2 ^ 32 ->
  x mod 16 = 0 -> y mod 16 = 0 -> w mod 16 = 0 -> h mod 16 = 0 ->
  x' mod 65536 = x mod 65536 -> y' mod 65536 = y mod 65536 ->
  w' mod 65536 = w mod 65536 -> h' mod 65536 = h mod 65536 ->
  panfrost_store_tiled_image b dst src x' y' w' h' ds ss desc =
  panfrost_store_tiled_image b dst src x y w h ds ss desc.
Proof.
  intros Hwd Hx Hy Hw Hh Hxw Hyh Hx' Hy' Hw' Hh' Hxw' Hyh' Ax Ay Aw Ah Ex Ey Ew Eh.
  assert (Ax' : x' mod 16 = 0) by (Z.div_mod_to_equations; lia).
  assert (Ay' : y' mod 16 = 0) by (Z.div_mod_to_equations; lia).
  assert (Aw' : w' mod 16 = 0) by (Z.div_mod_to_equations; lia).
  assert (Ah' : h' mod 16 = 0) by (Z.div_mod_to_equations; lia).
  rewrite !store_as_plan by assumption.
  rewrite !store_plan_spec by assumption.
  rewrite !top_spec_aligned by assumption.
  cbn [fold_left]. unfold run_step. cbn [fst snd rx ry rw rh].
  destruct (elem_of_bpp (bits (block desc))) as [elem|] eqn:He.
  - destruct (elem_shift _ _ He) as (shift & Hs & -> & ->).
    rewrite !store_interior_aligned by assumption.
    rewrite !OFFSET_origin.
    apply aligned_store_u16; assumption.
  - rewrite !store_interior_unsupported by assumption. reflexivity.
Qed.

Lemma aligned_rectangle_store_wraps_witness :
  panfrost_store_tiled_image (mem_zero, mem_ramp) 0 0 0 65536 16 16 64 64 desc_rgba8 =
  panfrost_store_tiled_image (mem_zero, mem_ramp) 0 0 0 0 16 16 64 64 desc_rgba8.
Proof.
  apply (aligned_rectangle_store_wraps desc_rgba8 (mem_zero, mem_ramp)
           0 0 0 0 16 16 0 65536 16 16 64 64);
    try reflexivity; simpl; lia.
Defined.

(** ** A whole tile *)

Lemma uncompressed_units (desc : util_format_description) (w h : Z) :
  width (block desc) <= 1 ->
  tile_shift_of desc = 4 /\ units_w desc w = w /\ units_h desc h = h.
Proof.
  intros Hwd. unfold tile_shift_of, units_w, units_h.
  destruct (Z.ltb_spec 1 (width (block desc))); [lia|]. repeat split.
Qed.

(** X12. Storing one whole tile of a format that is not block-compressed
    fills the tile: element [o] of the 256 elements of the tile, in the order
    of the tiled buffer, is the pixel of the linear source whose local
    coordinates are obtained from [o] by undoing the interleave (its odd bits
    are [y], its even bits are [x ^ y]). *)
Theorem full_tile_store (desc : util_format_description) (elem : Z)
    (T L : mem) (dstT srcL tx ty ts ls o k : Z) :
  elem_of_bpp (bits (block desc)) = Some elem -> width (block desc) <= 1 ->
  0 <= tx -> 0 <= ty -> 16 * tx + 16 < 2 ^ 16 -> 16 * ty + 16 < 2 ^ 16 ->
  padded elem 4 (16 * tx) (16 * ty) 16 16 ts ->
  0 <= ls -> 16 * ls <= 2 ^ 32 ->
  0 <= o < 256 -> 0 <= k < elem ->
  fst (panfrost_store_tiled_image (T, L) dstT srcL (16 * tx) (16 * ty) 16 16 ts ls desc)
      (dstT + u32 (16 * ty * ts) + elem * (256 * tx) + o * elem + k)
  = L (srcL + snd (tile_coords o) * ls + elem * fst (tile_coords o) + k).
Proof.
  intros He Hwd Htx Hty Hx16 Hy16 Hpad Hls Hlin Ho Hk.
  destruct (tile_coords_index o Ho) as (Hlx & Hly & Hidx).
  set (lx := fst (tile_coords o)) in *. set (ly := snd (tile_coords o)) in *.
  destruct (uncompressed_units desc 16 16 Hwd) as (Et & Ew & Eh).
  change (2 ^ 16) with 65536 in Hx16, Hy16.
  pose proof (store_then_read desc elem dstT srcL (16 * tx) (16 * ty) 16 16 ts ls) as R.
  rewrite Et, Ew, Eh in R.
  specialize (R He ltac:(lia) ltac:(lia) ltac:(lia) ltac:(lia)
                ltac:(intros _; change (2 ^ 16) with 65536; lia) Hpad Hls Hlin
                T L (16 * tx + lx) (16 * ty + ly) k ltac:(lia) ltac:(lia) Hk).
  rewrite unaligned_dest_tile in R
    by (try assumption; change (2 ^ 24) with 16777216; change (2 ^ 27) with 134217728; lia).
  rewrite Hidx in R. rewrite R. f_equal. ring.
Qed.

Lemma full_tile_store_witness :
  fst (panfrost_store_tiled_image (mem_zero, mem_ramp) 0 0 (16 * 1) (16 * 2) 16 16 128 64
         desc_rgba8)
      (0 + u32 (16 * 2 * 128) + 4 * (256 * 1) + 9 * 4 + 1)
  = mem_ramp (0 + snd (tile_coords 9) * 64 + 4 * fst (tile_coords 9) + 1).
Proof.
  apply (full_tile_store desc_rgba8 4 mem_zero mem_ramp 0 0 1 2 128 64 9 1);
    try reflexivity; unfold padded; simpl; lia.
Defined.

(** * Properties of the system-value encodings and of the successor loop *)

Lemma lor_high_low (a b n : Z) :
  0 <= n -> 0 <= b < 2 ^ n ->
  Z.land (Z.lor (a * 2 ^ n) b) (Z.ones n) = b /\
  Z.shiftr (Z.lor (a * 2 ^ n) b) n = a.
Proof.
  intros Hn Hb. split.
  - rewrite Z.land_lor_distr_l, !Z.land_ones by exact Hn.
    rewrite Z.mod_mul by lia. rewrite Z.mod_small by exact Hb. apply Z.lor_0_l.
  - rewrite Z.shiftr_lor, !Z.shiftr_div_pow2 by exact Hn.
    rewrite Z.div_mul by lia. rewrite Z.div_small by exact Hb. apply Z.lor_0_r.
Qed.

Lemma PAN_SYSVAL_enum_range (c : pan_sysval_class) : 0 < PAN_SYSVAL_enum c < 2 ^ 16.
Proof. destruct c; simpl; lia. Qed.

Lemma PAN_SYSVAL_enum_inj (c c' : pan_sysval_class) :
  PAN_SYSVAL_enum c = PAN_SYSVAL_enum c' -> c = c'.
Proof. destruct c, c'; simpl; intros H; try reflexivity; discriminate H. Qed.

Lemma shifted_id (no : Z) :
  0 <= no -> u32 (Z.shiftl no 16) = no mod 2 ^ 16 * 2 ^ 16.
Proof.
  intros Hno. unfold u32. rewrite Z.shiftl_mul_pow2 by lia.
  change (2 ^ 32) with (2 ^ 16 * 2 ^ 16).
  rewrite Z.mul_mod_distr_r by lia. reflexivity.
Qed.

Lemma sysval_type_id (c : pan_sysval_class) (n : Z) :
  0 <= n ->
  PAN_SYSVAL_TYPE (PAN_SYSVAL c n) = PAN_SYSVAL_enum c /\
  PAN_SYSVAL_ID (PAN_SYSVAL c n) = n mod 2 ^ 16.
Proof.
  intros Hn. unfold PAN_SYSVAL_TYPE, PAN_SYSVAL_ID, PAN_SYSVAL.
  rewrite shifted_id by exact Hn.
  change 65535 with (Z.ones 16).
  apply lor_high_low; [lia|]. pose proof (PAN_SYSVAL_enum_range c). lia.
Qed.

(** X13. A system value packs an identifier above its class: the class is
    always recovered, the identifier is recovered when it fits 16 bits and
    is otherwise cut to its low 16 bits; a class with identifier 0 is the
    enumerator itself; different (class, identifier) pairs give different
    system values. *)
Theorem sysval_roundtrip (type : pan_sysval_class) (no : Z) :
  0 <= no ->
  PAN_SYSVAL_TYPE (PAN_SYSVAL type no) = PAN_SYSVAL_enum type /\
  PAN_SYSVAL_ID (PAN_SYSVAL type no) = no mod 2 ^ 16 /\
  (no < 2 ^ 16 -> PAN_SYSVAL_ID (PAN_SYSVAL type no) = no) /\
  PAN_SYSVAL type 0 = PAN_SYSVAL_enum type /\
  (forall type' no', 0 <= no' < 2 ^ 16 -> no < 2 ^ 16 ->
     PAN_SYSVAL type no = PAN_SYSVAL type' no' -> type = type' /\ no = no').
Proof.
  intros Hno.
  pose proof sysval_type_id as R.
  destruct (R type no Hno) as [R1 R2].
  split; [exact R1|]. split; [exact R2|]. split; [|split].
  - intros Hlt. rewrite R2. apply Z.mod_small. lia.
  - destruct type; reflexivity.
  - intros type' no' Hno' Hlt E.
    destruct (R type' no' ltac:(lia)) as [R1' R2'].
    rewrite E in R1, R2. rewrite R1' in R1. rewrite R2' in R2.
    rewrite !Z.mod_small in R2 by lia.
    split; [apply PAN_SYSVAL_enum_inj; congruence | congruence].
Qed.

Lemma sysval_roundtrip_witness :
  PAN_SYSVAL_TYPE (PAN_SYSVAL SSBO 9) = 4 /\ PAN_SYSVAL_ID (PAN_SYSVAL SSBO 9) = 9.
Proof.
  pose proof (sysval_roundtrip SSBO 9 ltac:(lia)) as (H1 & _ & H3 & _).
  split; [exact H1 | apply H3; lia].
Defined.

(** X14. The identifier of a texture-size system value packs a texture
    index, a dimension and an array flag: the three are recovered when the
    index fits 7 bits and the dimension 2 bits, and the identifier then fits
    10 bits, so it survives [PAN_SYSVAL].  A larger texture index is cut to
    its low 7 bits by the decoder. *)
Theorem txs_sysval_roundtrip (texidx dim : Z) (is_array : bool) :
  0 <= texidx -> 0 <= dim < 4 ->
  PAN_SYSVAL_ID_TO_TXS_TEX_IDX (PAN_TXS_SYSVAL_ID texidx dim is_array) = texidx mod 128 /\
  (texidx < 128 ->
     PAN_SYSVAL_ID_TO_TXS_TEX_IDX (PAN_TXS_SYSVAL_ID texidx dim is_array) = texidx /\
     PAN_SYSVAL_ID_TO_TXS_DIM (PAN_TXS_SYSVAL_ID texidx dim is_array) = dim /\
     PAN_SYSVAL_ID_TO_TXS_IS_ARRAY (PAN_TXS_SYSVAL_ID texidx dim is_array) = is_array /\
     0 <= PAN_TXS_SYSVAL_ID texidx dim is_array < 2 ^ 10 /\
     PAN_SYSVAL_ID (PAN_SYSVAL TEXTURE_SIZE (PAN_TXS_SYSVAL_ID texidx dim is_array)) =
       PAN_TXS_SYSVAL_ID texidx dim is_array).
Proof.
  intros Ht Hd. split.
  - unfold PAN_SYSVAL_ID_TO_TXS_TEX_IDX, PAN_TXS_SYSVAL_ID.
    change 127 with (Z.ones 7).
    rewrite !Z.land_lor_distr_l, !Z.land_ones by lia.
    assert (D : dim = 0 \/ dim = 1 \/ dim = 2 \/ dim = 3) by lia.
    change (2 ^ 7) with 128.
    destruct D as [-> | [-> | [-> | ->]]]; destruct is_array;
      cbn; rewrite ?Z.lor_0_r; reflexivity.
  - intros Hlt.
    assert (Hb : forallb (fun t => forallb (fun d => forallb (fun arr =>
        (PAN_SYSVAL_ID_TO_TXS_TEX_IDX (PAN_TXS_SYSVAL_ID t d arr) =? t)
        && (PAN_SYSVAL_ID_TO_TXS_DIM (PAN_TXS_SYSVAL_ID t d arr) =? d)
        && Bool.eqb (PAN_SYSVAL_ID_TO_TXS_IS_ARRAY (PAN_TXS_SYSVAL_ID t d arr)) arr
        && (0 <=? PAN_TXS_SYSVAL_ID t d arr)
        && (PAN_TXS_SYSVAL_ID t d arr <? 2 ^ 10))
        [true; false]) (seqZ 4)) (seqZ 128) = true) by (vm_compute; reflexivity).
    rewrite forallb_forall in Hb.
    specialize (Hb texidx (proj2 (in_seqZ 128 texidx) ltac:(lia))).
    rewrite forallb_forall in Hb.
    specialize (Hb dim (proj2 (in_seqZ 4 dim) ltac:(lia))).
    rewrite forallb_forall in Hb.
    specialize (Hb is_array ltac:(destruct is_array; simpl; auto)).
    rewrite !andb_true_iff in Hb. destruct Hb as [[[[H1 H2] H3] H4] H5].
    assert (H4' : 0 <= PAN_TXS_SYSVAL_ID texidx dim is_array) by lia.
    repeat split; try lia.
    + apply Bool.eqb_prop, H3.
    + rewrite (proj2 (sysval_type_id TEXTURE_SIZE _ H4')).
      apply Z.mod_small. lia.
Qed.

Lemma txs_sysval_roundtrip_witness :
  PAN_SYSVAL_ID_TO_TXS_TEX_IDX (PAN_TXS_SYSVAL_ID 5 2 true) = 5 /\
  PAN_SYSVAL_ID_TO_TXS_DIM (PAN_TXS_SYSVAL_ID 5 2 true) = 2 /\
  PAN_SYSVAL_ID_TO_TXS_IS_ARRAY (PAN_TXS_SYSVAL_ID 5 2 true) = true.
Proof.
  pose proof (proj2 (txs_sysval_roundtrip 5 2 true ltac:(lia) ltac:(lia)) ltac:(lia))
    as (H1 & H2 & H3 & _).
  repeat split; assumption.
Defined.

(** X15. [pan_foreach_successor] runs the body on the successors of the
    block up to the first [NULL], in order: a successor stored behind a
    [NULL] is never visited, and what lies after the two slots, which the
    loop reads, has no influence. *)
Theorem foreach_successor_visits_prefix {A : Type} (slot : Z -> Z)
    (body : Z -> A -> A) (a : A) :
  pan_foreach_successor slot body a =
    fold_left (fun acc v => body v acc) (nonnull_prefix [slot 0; slot 1]) a /\
  (slot 0 = 0 -> pan_foreach_successor slot body a = a) /\
  (forall slot', slot' 0 = slot 0 -> slot' 1 = slot 1 ->
     pan_foreach_successor slot' body a = pan_foreach_successor slot body a).
Proof.
  assert (E : forall s : Z -> Z, pan_foreach_successor s body a =
    fold_left (fun acc v => body v acc) (nonnull_prefix [s 0; s 1]) a).
  { intros s. unfold pan_foreach_successor. cbn [foreach_successor_from nonnull_prefix].
    change (0 + 1) with 1. change (1 + 1) with 2. change (0 <? 2) with true.
    change (1 <? 2) with true. change (2 <? 2) with false.
    rewrite !andb_true_r, andb_false_r.
    destruct (s 0 =? 0); [reflexivity|]. cbn [negb].
    destruct (s 1 =? 0); reflexivity. }
  split; [apply E|]. split.
  - intros H0. rewrite E, H0. reflexivity.
  - intros slot' H0 H1. rewrite !E, H0, H1. reflexivity.
Qed.

Lemma foreach_successor_visits_prefix_witness :
  pan_foreach_successor (fun i => if i =? 1 then 7 else 0) (fun v acc => v :: acc) [] = [].
Proof.
  exact (proj1 (proj2 (foreach_successor_visits_prefix
                         (fun i => if i =? 1 then 7 else 0) (fun v acc => v :: acc) []))
           eq_refl).
Defined.
